(** * images-on-map-server: the markers API of [main.go]

    A shallow embedding of the four handlers registered under
    [/api/v1/markers] and of the validation and normalisation methods of
    [Marker], [Coords] and [Image], followed by the properties the
    specification states about them. *)

From Stdlib Require Import ZArith QArith Qpower String List Bool Lia.
From Stdlib Require Import Floats.SpecFloat.
From stdpp Require Import gmap strings.

Local Open Scope string_scope.
Local Open Scope Z_scope.

(** ** Go values *)

(** A Go slice is either [nil] or a (possibly empty) sequence; [m.Images == nil]
    and the JSON encoder tell the two apart, so the model keeps them apart. *)
Definition slice (A : Type) : Type := option (list A).

(** [range s]: the elements a [for _, x := range s] loop visits. *)
Definition range {A : Type} (s : slice A) : list A :=
  match s with
  | None => []
  | Some xs => xs
  end.

(** ** float64

    Go's [float64] is IEEE 754 binary64: 53 bits of precision, infinities at
    exponent 1024, signed zeros and NaN. *)
Module Float64.

Definition prec : Z := 53.
Definition emax : Z := 1024.

Definition t : Type := spec_float.

Definition NaN : t := S754_nan.

(** The values a [float64] variable can hold. *)
Definition valid (x : t) : bool := valid_binary prec emax x.

(** Conversion of an untyped integer constant such as [-180]. *)
Definition of_Z (z : Z) : t := binary_normalize prec emax z 0 false.

(** The operators [<], [>], [<=] and [>=] on [float64]: every comparison
    with a NaN operand is false. *)
Definition lt (x y : t) : bool := SFltb x y.
Definition gt (x y : t) : bool := SFltb y x.
Definition le (x y : t) : bool := SFleb x y.
Definition ge (x y : t) : bool := SFleb y x.

Definition is_nan (x : t) : bool :=
  match x with
  | S754_nan => true
  | _ => false
  end.

(** [x] lies in the closed interval from [lo] to [hi]. *)
Definition within (lo hi : Z) (x : t) : bool :=
  ge x (of_Z lo) && le x (of_Z hi).

(** The rational a finite [float64] denotes; infinities and NaN denote
    none. *)
Definition value (x : t) : option Q :=
  match x with
  | S754_zero _ => Some 0%Q
  | S754_finite s m e =>
      let q := (inject_Z (Z.pos m) * Qpower 2 e)%Q in
      Some (if s then Qopp q else q)
  | S754_infinity _ | S754_nan => None
  end.

Definition is_finite (x : t) : bool :=
  match x with
  | S754_zero _ | S754_finite _ _ _ => true
  | S754_infinity _ | S754_nan => false
  end.

(** [x] is a number of the closed interval from [lo] to [hi]. *)
Definition in_range (lo hi : Z) (x : t) : Prop :=
  exists q : Q, value x = Some q /\ (inject_Z lo <= q <= inject_Z hi)%Q.

(** The integer constant [z] converts to a float64 without rounding. *)
Definition representable (z : Z) : Prop :=
  valid (of_Z z) = true /\
  exists q : Q, value (of_Z z) = Some q /\ (q == inject_Z z)%Q.

(** The smallest positive float64, [2^-1074], and a finite [x] counted in
    units of it. *)
Definition ulp_min : Q := Qpower 2 (-1074).

Definition scaled (x : t) : Z :=
  match x with
  | S754_finite s m e => cond_Zopp s (Z.pos m * 2 ^ (e + 1074))
  | _ => 0
  end.

End Float64.

(** ** Errors *)

(** [mongo.WriteError], [mongo.WriteConcernError] and [mongo.WriteException],
    reduced to the fields [HasErrorCode] reads. *)
Module mongo.

Record WriteError : Type := { Index : Z; Code : Z; Message : string }.

Record WriteConcernError : Type := { wcCode : Z; wcMessage : string }.

Record WriteException : Type := {
  WriteConcernError_ : option WriteConcernError;
  WriteErrors : list WriteError
}.

(** [func (mwe WriteException) HasErrorCode(code int) bool] *)
Definition HasErrorCode (mwe : WriteException) (code : Z) : bool :=
  match WriteConcernError_ mwe with
  | Some wce => if wcCode wce =? code then true
                else existsb (fun we => Code we =? code) (WriteErrors mwe)
  | None => existsb (fun we => Code we =? code) (WriteErrors mwe)
  end.

End mongo.

(** The values of Go's [error] interface that reach the handlers. *)
Inductive error : Type :=
| errorString (s : string)
    (** [fmt.Errorf] without [%w] *)
| wrapError (msg : string) (err : error)
    (** [fmt.Errorf] with one [%w]: the formatted text and the wrapped error *)
| WriteException (msg : string) (mwe : mongo.WriteException)
    (** a [mongo.WriteException] and the text the driver renders for it *)
| otherError (msg : string).
    (** any other error of echo or of the driver *)

(** [err.Error()] *)
Definition Error (err : error) : string :=
  match err with
  | errorString s => s
  | wrapError msg _ => msg
  | WriteException msg _ => msg
  | otherError msg => msg
  end.

(** [fmt.Errorf(prefix + "%w", err)] *)
Definition Errorf_w (prefix : string) (err : error) : error :=
  wrapError (prefix +:+ Error err) err.

(** [errors.As(err, &mongoErr)] for [var mongoErr mongo.WriteException]: the
    first write exception on the [Unwrap] chain. *)
Fixpoint errors_As (err : error) : option mongo.WriteException :=
  match err with
  | WriteException _ mwe => Some mwe
  | wrapError _ inner => errors_As inner
  | errorString _ | otherError _ => None
  end.

(** [sub] occurs in [s]. *)
Definition contains (s sub : string) : Prop :=
  exists pre post : string, s = pre +:+ sub +:+ post.

(** ** The data model *)

Module Coords.

Record t : Type := {
  Latitude : Float64.t;
  Longitude : Float64.t
}.

(** [func (c Coords) Validate() error] *)
Definition Validate (c : t) : option error :=
  if Float64.lt (Latitude c) (Float64.of_Z (-180))
     || Float64.gt (Latitude c) (Float64.of_Z 180)
  then Some (errorString "invalid latitude")
  else if Float64.lt (Longitude c) (Float64.of_Z (-90))
          || Float64.gt (Longitude c) (Float64.of_Z 90)
  then Some (errorString "invalid longitude")
  else None.

End Coords.

Module Image.

(** [Width] and [Height] are Go [int]s; they are only compared with [0]. *)
Record t : Type := {
  ID : string;
  URI : string;
  Width : Z;
  Height : Z
}.

(** [func (i Image) Validate() error] *)
Definition Validate (i : t) : option error :=
  if String.eqb (ID i) ""
  then Some (errorString "empty id")
  else if String.eqb (URI i) ""
  then Some (errorString "empty uri")
  else if (Width i <=? 0) || (Height i <=? 0)
  then Some (errorString "invalid dimensions")
  else None.

End Image.

Module Marker.

Record t : Type := {
  ID : string;
  Name : string;
  Location : Coords.t;
  Images : slice Image.t
}.

(** [func (m Marker) Normalize() Marker] *)
Definition Normalize (m : t) : t :=
  match Images m with
  | None => {| ID := ID m; Name := Name m; Location := Location m;
               Images := Some [] |}
  | Some _ => m
  end.

(** The loop [for _, image := range m.Images] of [Validate]. *)
Fixpoint validate_images (images : list Image.t) : option error :=
  match images with
  | [] => None
  | image :: rest =>
      match Image.Validate image with
      | Some err =>
          Some (Errorf_w ("invalid image " +:+ Image.ID image +:+ ": ") err)
      | None => validate_images rest
      end
  end.

(** [func (m Marker) Validate() error] *)
Definition Validate (m : t) : option error :=
  if String.eqb (ID m) ""
  then Some (errorString "empty id")
  else if String.eqb (Name m) ""
  then Some (errorString "empty name")
  else match Coords.Validate (Location m) with
       | Some err => Some (Errorf_w "invalid location: " err)
       | None => validate_images (range (Images m))
       end.

End Marker.

(** ** The HTTP layer *)

(** [net/http] status codes the handlers use. *)
Module http.
Definition StatusOK : Z := 200.
Definition StatusCreated : Z := 201.
Definition StatusBadRequest : Z := 400.
Definition StatusInternalServerError : Z := 500.
Definition StatusServiceUnavailable : Z := 503.
End http.

(** What a handler reads from its [echo.Context]: the path parameters and the
    outcome of [c.Bind(&body)]. *)
Record Context : Type := {
  Param : string -> string;
  Bind : error + Marker.t
}.

(** The value handed to [c.JSON], or no body for [c.NoContent]. *)
Inductive Body : Type :=
| NoBody
| ErrorBody (err : error)            (** [Error{err}] *)
| ErrorStringBody (s : string)       (** [ErrorString{s}] *)
| MarkersBody (results : slice Marker.t)
| MessageBody (message : string).    (** echo's [Map{"message": message}] *)

Record Response : Type := {
  Status : Z;
  Payload : Body
}.

(** ** JSON encoding

    [c.JSON] encodes its argument with [encoding/json] before it writes
    anything. The encoder refuses a float64 that is NaN or an infinity
    ("json: unsupported value"); the other fields of a [Marker] always
    encode. *)

(** JSON values, as far as the body of a List response needs them. *)
#[local] Set Warnings "-register-all".
Inductive json : Type :=
| JNull
| JString (s : string)
| JInt (z : Z)
| JFloat (x : Float64.t)
| JArray (xs : list json)
| JObject (fields : list (string * json)).

(** The encoding of a float64, or [None] when the encoder refuses it. *)
Definition marshal_float64 (x : Float64.t) : option json :=
  if Float64.is_finite x then Some (JFloat x) else None.

(** The elements of a sequence in order; refused when one of them is. *)
Fixpoint marshal_each {A : Type} (f : A -> option json) (xs : list A)
  : option (list json) :=
  match xs with
  | [] => Some []
  | x :: rest =>
      match f x, marshal_each f rest with
      | Some j, Some js => Some (j :: js)
      | _, _ => None
      end
  end.

(** [encoding/json] on a slice: [null] for a nil slice, an array otherwise. *)
Definition marshal_slice {A : Type} (f : A -> option json) (s : slice A)
  : option json :=
  match s with
  | None => Some JNull
  | Some xs =>
      match marshal_each f xs with
      | Some js => Some (JArray js)
      | None => None
      end
  end.

Definition marshal_Coords (c : Coords.t) : option json :=
  match marshal_float64 (Coords.Latitude c),
        marshal_float64 (Coords.Longitude c) with
  | Some lat, Some lon =>
      Some (JObject [("latitude", lat); ("longitude", lon)])
  | _, _ => None
  end.

Definition marshal_Image (i : Image.t) : option json :=
  Some (JObject [("id", JString (Image.ID i)); ("uri", JString (Image.URI i));
                 ("width", JInt (Image.Width i));
                 ("height", JInt (Image.Height i))]).

Definition marshal_Marker (m : Marker.t) : option json :=
  match marshal_Coords (Marker.Location m),
        marshal_slice marshal_Image (Marker.Images m) with
  | Some location, Some images =>
      Some (JObject [("id", JString (Marker.ID m));
                     ("name", JString (Marker.Name m));
                     ("location", location); ("images", images)])
  | _, _ => None
  end.

(** What a response body looks like on the wire when it is a list of
    markers, or [None] when the encoder refuses it. *)
Definition marshal_results (results : slice Marker.t) : option json :=
  marshal_slice marshal_Marker results.

(** Whether the encoder accepts the value handed to [c.JSON]. The error
    bodies [Error{err}] and [ErrorString{s}] and echo's message map are
    taken to encode. *)
Definition encodable (i : Body) : bool :=
  match i with
  | MarkersBody results =>
      match marshal_results results with
      | Some _ => true
      | None => false
      end
  | NoBody | ErrorBody _ | ErrorStringBody _ | MessageBody _ => true
  end.

(** What echo's [DefaultHTTPErrorHandler] sends for an error a handler
    returns that is no [*echo.HTTPError], when nothing was written yet. *)
Definition InternalServerError : Response :=
  {| Status := http.StatusInternalServerError;
     Payload := MessageBody "Internal Server Error" |}.

(** ** Effects of a handler

    A handler talks to the [markers] collection and to the request logger.
    Both are effects of the surrounding libraries, so a handler is a tree of
    such calls, each continued with the value the library returns. *)

(** A cursor stands for the documents a query matched. *)
Definition Cursor : Type := list Marker.t.

Inductive DbOp : Type :=
| Find                                     (** [Find(ctx, bson.D{})] *)
| All (cursor : Cursor)                    (** [cursor.All(ctx, &results)] *)
| InsertOne (doc : Marker.t)               (** [InsertOne(ctx, doc)] *)
| DeleteOne (id : string)                  (** [DeleteOne(ctx, bson.M{"_id": id})] *)
| ReplaceOne (id : string) (doc : Marker.t).
                                           (** [ReplaceOne(ctx, bson.M{"_id": id}, doc)] *)

(** What each call returns to the handler: an error or a cursor for [Find],
    an error or the decoded documents for [All], and for the writes the
    [err] of the [(result, err)] pair (the handlers drop the result). *)
Definition DbRet (o : DbOp) : Type :=
  match o with
  | Find => (error + Cursor)%type
  | All _ => (error + list Marker.t)%type
  | InsertOne _ | DeleteOne _ | ReplaceOne _ _ => option error
  end.

Inductive Level : Type := INFO | ERROR.

(** The argument of [c.Logger().Info] or [c.Logger().Error]. *)
Inductive Logged : Type :=
| LogErr (err : error)
| LogStr (s : string).

Inductive Handler (R : Type) : Type :=
| Return (r : R)
| Db (o : DbOp) (k : DbRet o -> Handler R)
| Log (lvl : Level) (v : Logged) (k : Handler R).

Arguments Return {R} r.
Arguments Db {R} o k.
Arguments Log {R} lvl v k.

Declare Scope handler_scope.
Delimit Scope handler_scope with handler.

Notation "x <- 'db' o ;; k" := (Db o (fun x => k))
  (at level 100, o at next level, right associativity) : handler_scope.
Notation "'log' lvl v ;; k" := (Log lvl v k)
  (at level 100, lvl at level 0, v at level 0, right associativity)
  : handler_scope.

(** [c.JSON(code, i)]: the response with status [code] and body [i]. When
    the encoder refuses [i], nothing is written, [c.JSON] returns the
    encoder's error, the handler returns it in turn, and echo answers 500. *)
Definition JSON (code : Z) (i : Body) : Handler Response :=
  if encodable i
  then Return {| Status := code; Payload := i |}
  else Return InternalServerError.

(** [c.NoContent(code)] *)
Definition NoContent (code : Z) : Handler Response :=
  Return {| Status := code; Payload := NoBody |}.

(** [cursor.All(ctx, &results)] stores the decoded documents in the slice
    [results] points to, reslicing it from index [0]: a non-nil slice stays
    non-nil also when there is no document. *)
Definition fill (results : slice Marker.t) (docs : list Marker.t)
  : slice Marker.t :=
  match results, docs with
  | None, [] => None
  | _, _ => Some docs
  end.

(** [mongoErr.HasErrorCode(11000)] after [errors.As(err, &mongoErr)] *)
Definition is_duplicate_key (err : error) : bool :=
  match errors_As err with
  | Some mongoErr => mongo.HasErrorCode mongoErr 11000
  | None => false
  end.

Local Open Scope handler_scope.

(** [group.GET("/", ...)] *)
Definition GET (c : Context) : Handler Response :=
  r <- db Find ;;
  match r with
  | inl err =>
      log ERROR (LogErr err) ;;
      JSON http.StatusServiceUnavailable (ErrorBody err)
  | inr cursor =>
      let results : slice Marker.t := Some [] in
      r <- db (All cursor) ;;
      match r with
      | inl err =>
          log ERROR (LogErr err) ;;
          JSON http.StatusServiceUnavailable (ErrorBody err)
      | inr docs =>
          JSON http.StatusOK (MarkersBody (fill results docs))
      end
  end.

(** [group.POST("/", ...)] *)
Definition POST (c : Context) : Handler Response :=
  match Bind c with
  | inl err =>
      log INFO (LogErr err) ;;
      JSON http.StatusBadRequest (ErrorBody err)
  | inr body =>
      match Marker.Validate body with
      | Some err =>
          log INFO (LogErr err) ;;
          JSON http.StatusBadRequest (ErrorBody err)
      | None =>
          r <- db (InsertOne (Marker.Normalize body)) ;;
          match r with
          | Some err =>
              if is_duplicate_key err
              then
                let s := "duplicated id" in
                log INFO (LogStr s) ;;
                JSON http.StatusBadRequest (ErrorStringBody s)
              else
                log ERROR (LogErr err) ;;
                JSON http.StatusServiceUnavailable (ErrorBody err)
          | None => NoContent http.StatusCreated
          end
      end
  end.

(** [group.DELETE("/:id", ...)] *)
Definition DELETE (c : Context) : Handler Response :=
  let id := Param c "id" in
  r <- db (DeleteOne id) ;;
  match r with
  | Some err =>
      log ERROR (LogErr err) ;;
      JSON http.StatusServiceUnavailable (ErrorBody err)
  | None => NoContent http.StatusOK
  end.

(** [group.PUT("/:id", ...)] *)
Definition PUT (c : Context) : Handler Response :=
  match Bind c with
  | inl err =>
      log INFO (LogErr err) ;;
      JSON http.StatusBadRequest (ErrorBody err)
  | inr body =>
      let id := Param c "id" in
      if negb (String.eqb (Marker.ID body) id)
      then
        let s := "id in path and body doesn't match" in
        log INFO (LogStr s) ;;
        JSON http.StatusBadRequest (ErrorStringBody s)
      else
        match Marker.Validate body with
        | Some err =>
            log INFO (LogErr err) ;;
            JSON http.StatusBadRequest (ErrorBody err)
        | None =>
            r <- db (ReplaceOne id (Marker.Normalize body)) ;;
            match r with
            | Some err =>
                log ERROR (LogErr err) ;;
                JSON http.StatusServiceUnavailable (ErrorBody err)
            | None => NoContent http.StatusOK
            end
        end
  end.

Local Close Scope handler_scope.

(** ** Running a handler against a document store *)

(** A backend is a document store as the driver presents it: the state of
    the [markers] collection and what each call answers and does to it. *)
Record Backend : Type := {
  State : Type;
  exec : forall o : DbOp, State -> DbRet o * State
}.

(** What one request leaves behind: the response, the collection, the store
    calls issued in order, and the log lines written in order. *)
Record Run (S R : Type) : Type := {
  result : R;
  final : S;
  calls : list DbOp;
  logged : list (Level * Logged)
}.

Arguments result {S R} _.
Arguments final {S R} _.
Arguments calls {S R} _.
Arguments logged {S R} _.

Fixpoint run {R : Type} (B : Backend) (h : Handler R) (s : State B)
  : Run (State B) R :=
  match h with
  | Return r => {| result := r; final := s; calls := []; logged := [] |}
  | Db o k =>
      let '(x, s') := exec B o s in
      let r := run B (k x) s' in
      {| result := result r; final := final r;
         calls := o :: calls r; logged := logged r |}
  | Log lvl v k =>
      let r := run B k s in
      {| result := result r; final := final r;
         calls := calls r; logged := (lvl, v) :: logged r |}
  end.

(** The error a failing call hands back, in the shape of the call's result. *)
Definition failed (o : DbOp) (err : error) : DbRet o :=
  match o with
  | Find => inl err
  | All _ => inl err
  | InsertOne _ => Some err
  | DeleteOne _ => Some err
  | ReplaceOne _ _ => Some err
  end.

(** The write exception of a duplicate [_id]: server error code 11000. *)
Definition duplicate_key_error : error :=
  WriteException "write exception: write errors: [E11000 duplicate key error]"
    {| mongo.WriteConcernError_ := None;
       mongo.WriteErrors :=
         [ {| mongo.Index := 0; mongo.Code := 11000;
              mongo.Message := "E11000 duplicate key error" |} ] |}.

(** The write exception of a replacement that would change [_id]: server
    error code 66. *)
Definition immutable_field_error : error :=
  WriteException "write exception: write errors: [the (immutable) field '_id' was found to have been altered]"
    {| mongo.WriteConcernError_ := None;
       mongo.WriteErrors :=
         [ {| mongo.Index := 0; mongo.Code := 66;
              mongo.Message := "the (immutable) field '_id' was found to have been altered" |} ] |}.

(** The error of a replace that matched no document, for a store that
    reports one. *)
Definition not_found_error : error :=
  otherError "mongo: no documents in result".

(** What the store does with a replace-by-id whose id it does not hold.
    Section 9 of the specification leaves it open and names three
    possibilities: it succeeds silently, it creates the document, or it
    fails with not-found. *)
Inductive OnMissing : Type := SucceedSilently | CreateDocument | FailNotFound.

(** Modelled from the spec: the Document Store, an external collaborator
    that is no part of [main.go]. Section 6 of the specification gives it
    find-all, insert-one with the id as primary key and uniqueness enforced,
    delete-by-id, a no-op on a missing id, and replace-by-id, whose
    behaviour on a missing id is the parameter [missing]. Documents are kept
    by [_id]. *)
Definition mem_exec (missing : OnMissing) (o : DbOp) (s : gmap string Marker.t)
  : DbRet o * gmap string Marker.t :=
  match o with
  | Find => (inr (snd <$> map_to_list s), s)
  | All cursor => (inr cursor, s)
  | InsertOne doc =>
      match s !! Marker.ID doc with
      | Some _ => (Some duplicate_key_error, s)
      | None => (None, <[Marker.ID doc := doc]> s)
      end
  | DeleteOne id => (None, delete id s)
  | ReplaceOne id doc =>
      match s !! id with
      | Some _ =>
          if String.eqb (Marker.ID doc) id
          then (None, <[id := doc]> s)
          else (Some immutable_field_error, s)
      | None =>
          match missing with
          | SucceedSilently => (None, s)
          | CreateDocument =>
              if String.eqb (Marker.ID doc) id
              then (None, <[id := doc]> s)
              else (Some immutable_field_error, s)
          | FailNotFound => (Some not_found_error, s)
          end
      end
  end.

Definition MemStoreWith (missing : OnMissing) : Backend :=
  {| State := gmap string Marker.t; exec := mem_exec missing |}.

(** The store in which a replace of a missing id succeeds silently, the
    case the specification calls likely. *)
Definition MemStore : Backend := MemStoreWith SucceedSilently.

(** The same store behind an unreliable connection: the calls [fault] picks
    fail with its error and leave the collection as it was. *)
Definition Faulty (fault : DbOp -> option error) : Backend :=
  {| State := gmap string Marker.t;
     exec := fun o s =>
       match fault o with
       | Some err => (failed o err, s)
       | None => mem_exec SucceedSilently o s
       end |}.

(** The store calls of a run that are writes. *)
Definition is_write (o : DbOp) : bool :=
  match o with
  | Find | All _ => false
  | InsertOne _ | DeleteOne _ | ReplaceOne _ _ => true
  end.

(** ** Predicates of the specification *)

(** The Image rule of the specification: [id] and [uri] non-empty, [width]
    and [height] strictly positive. *)
Definition valid_image (i : Image.t) : Prop :=
  Image.ID i <> "" /\ Image.URI i <> "" /\
  0 < Image.Width i /\ 0 < Image.Height i.

(** Image ids are unique within the marker. *)
Definition unique_image_ids (m : Marker.t) : Prop :=
  List.NoDup (map Image.ID (range (Marker.Images m))).

(** Both coordinates are numbers: neither NaN nor an infinity. *)
Definition finite_coords (m : Marker.t) : bool :=
  Float64.is_finite (Coords.Latitude (Marker.Location m))
  && Float64.is_finite (Coords.Longitude (Marker.Location m)).

(** A collection in which every document is kept under its own id. *)
Definition keyed (s : gmap string Marker.t) : Prop :=
  map_Forall (fun id m => Marker.ID m = id) s.

(** A collection in which every document has numbers for coordinates. *)
Definition encodable_store (s : gmap string Marker.t) : Prop :=
  map_Forall (fun _ m => finite_coords m = true) s.

(** The markers a write call hands to the store. *)
Definition written (o : DbOp) : list Marker.t :=
  match o with
  | InsertOne doc => [doc]
  | ReplaceOne _ doc => [doc]
  | Find | All _ | DeleteOne _ => []
  end.

(** ** Sample requests *)

Definition sample_location : Coords.t :=
  {| Coords.Latitude := Float64.of_Z 59; Coords.Longitude := Float64.of_Z 30 |}.

Definition photo : Image.t :=
  {| Image.ID := "p1"; Image.URI := "https://example.org/p1.jpg";
     Image.Width := 640; Image.Height := 480 |}.

(** A valid payload without an [images] field. *)
Definition cafe : Marker.t :=
  {| Marker.ID := "a"; Marker.Name := "cafe";
     Marker.Location := sample_location; Marker.Images := None |}.

(** Another valid payload with the same id. *)
Definition bridge : Marker.t :=
  {| Marker.ID := "a"; Marker.Name := "bridge";
     Marker.Location := sample_location; Marker.Images := Some [photo] |}.

(** A payload whose two images share one id. *)
Definition twins : Marker.t :=
  {| Marker.ID := "t"; Marker.Name := "twins";
     Marker.Location := sample_location;
     Marker.Images := Some [photo; photo] |}.

(** Two images that fail validation, and a payload that carries them after
    a valid one. *)
Definition flat : Image.t :=
  {| Image.ID := "p2"; Image.URI := "https://example.org/p2.jpg";
     Image.Width := 640; Image.Height := 0 |}.

Definition blank : Image.t :=
  {| Image.ID := "p3"; Image.URI := ""; Image.Width := 1; Image.Height := 1 |}.

Definition album : Marker.t :=
  {| Marker.ID := "c"; Marker.Name := "album";
     Marker.Location := sample_location;
     Marker.Images := Some [photo; flat; blank] |}.

(** A payload that fails validation: the name is empty. *)
Definition nameless : Marker.t :=
  {| Marker.ID := "b"; Marker.Name := "";
     Marker.Location := sample_location; Marker.Images := None |}.

(** Coordinates with a NaN latitude: one with the longitude in range, one
    with the longitude out of range. *)
Definition nan_latitude : Coords.t :=
  {| Coords.Latitude := Float64.NaN; Coords.Longitude := Float64.of_Z 0 |}.

Definition nan_latitude_far_longitude : Coords.t :=
  {| Coords.Latitude := Float64.NaN; Coords.Longitude := Float64.of_Z 200 |}.

Definition nowhere : Marker.t :=
  {| Marker.ID := "n"; Marker.Name := "nowhere";
     Marker.Location := nan_latitude; Marker.Images := None |}.

(** A request with path parameter [id] and a body that binds to [body]. *)
Definition request (id : string) (body : Marker.t) : Context :=
  {| Param := fun name => if String.eqb name "id" then id else "";
     Bind := inr body |}.

(** A request whose body does not deserialize. *)
Definition malformed (id : string) : Context :=
  {| Param := fun name => if String.eqb name "id" then id else "";
     Bind := inl (otherError "code=400, message=Syntax error") |}.

(** A connection on which every call of the store fails. *)
Definition unreachable : error :=
  otherError "server selection error: context deadline exceeded".

Definition Down : Backend := Faulty (fun _ => Some unreachable).

(** A connection that breaks while a cursor is read. *)
Definition BrokenCursor : Backend :=
  Faulty (fun o => match o with All _ => Some unreachable | _ => None end).

(** ** The route table and a sequence of requests *)

(** The methods [main] registers a handler for on the group
    [/api/v1/markers]. *)
Inductive Method : Type := MethodGet | MethodPost | MethodDelete | MethodPut.

(** [group.GET], [group.POST], [group.DELETE] and [group.PUT]. *)
Definition route (m : Method) : Context -> Handler Response :=
  match m with
  | MethodGet => GET
  | MethodPost => POST
  | MethodDelete => DELETE
  | MethodPut => PUT
  end.



(** * Properties *)

(** ** float64 comparisons *)

Lemma SFcompare_antisym (x y : spec_float) (c : comparison) :
  SFcompare x y = Some c -> SFcompare y x = Some (CompOpp c).
Proof.
  destruct x as [sx | sx | | sx mx ex], y as [sy | sy | | sy my ey];
    simpl; try discriminate;
    intros H; injection H as <-;
    repeat match goal with b : bool |- _ => destruct b end;
    try reflexivity.
  - rewrite (Z.compare_antisym ex ey).
    destruct (ex ?= ey); simpl; try reflexivity.
    do 2 f_equal. exact (ZC4 my mx).
  - rewrite (Z.compare_antisym ex ey).
    destruct (ex ?= ey); simpl; try reflexivity.
    f_equal. exact (ZC4 my mx).
Qed.

Lemma SFcompare_nan_l (y : spec_float) : SFcompare S754_nan y = None.
Proof. reflexivity. Qed.

Lemma SFcompare_nan_r (x : spec_float) : SFcompare x S754_nan = None.
Proof. now destruct x. Qed.

Lemma SFcompare_defined (x y : spec_float) :
  Float64.is_nan x = false -> Float64.is_nan y = false ->
  exists c, SFcompare x y = Some c.
Proof.
  destruct x, y; simpl; try discriminate; eauto.
Qed.

(** For operands that are not NaN, [x < y] fails exactly when [x >= y]. *)
Lemma lt_false_iff_ge (x y : Float64.t) :
  Float64.is_nan x = false -> Float64.is_nan y = false ->
  Float64.lt x y = false <-> Float64.ge x y = true.
Proof.
  intros Hx Hy. unfold Float64.lt, Float64.ge, SFltb, SFleb.
  destruct (SFcompare_defined x y Hx Hy) as [c Hc].
  rewrite Hc, (SFcompare_antisym _ _ _ Hc).
  destruct c; simpl; split; congruence.
Qed.

Lemma gt_false_iff_le (x y : Float64.t) :
  Float64.is_nan x = false -> Float64.is_nan y = false ->
  Float64.gt x y = false <-> Float64.le x y = true.
Proof.
  intros Hx Hy. unfold Float64.gt, Float64.le, SFltb, SFleb.
  destruct (SFcompare_defined x y Hx Hy) as [c Hc].
  rewrite Hc, (SFcompare_antisym _ _ _ Hc).
  destruct c; simpl; split; congruence.
Qed.

(** A range check written as in [Coords.Validate] passes exactly on the
    values inside the range and on NaN. *)
Lemma range_check (lo hi : Z) (x : Float64.t) :
  Float64.is_nan (Float64.of_Z lo) = false ->
  Float64.is_nan (Float64.of_Z hi) = false ->
  Float64.lt x (Float64.of_Z lo) || Float64.gt x (Float64.of_Z hi)
  = negb (Float64.is_nan x || Float64.within lo hi x).
Proof.
  intros Hlo Hhi. destruct (Float64.is_nan x) eqn:Hx.
  - destruct x; try discriminate.
    unfold Float64.lt, Float64.gt, SFltb. now rewrite SFcompare_nan_l, SFcompare_nan_r.
  - simpl. unfold Float64.within.
    pose proof (lt_false_iff_ge x _ Hx Hlo) as H1.
    pose proof (gt_false_iff_le x _ Hx Hhi) as H2.
    destruct (Float64.lt x (Float64.of_Z lo)), (Float64.ge x (Float64.of_Z lo)),
      (Float64.gt x (Float64.of_Z hi)), (Float64.le x (Float64.of_Z hi));
      simpl; try reflexivity; intuition congruence.
Qed.

(** ** The rational value of a float64 *)

Lemma digits2_pos_bounds (m : positive) :
  (2 ^ (Z.pos (digits2_pos m) - 1) <= Z.pos m < 2 ^ Z.pos (digits2_pos m))%Z.
Proof.
  induction m as [p IH | p IH | ]; simpl digits2_pos.
  - rewrite Pos2Z.inj_succ, Z.pow_succ_r by lia.
    replace (Z.succ (Z.pos (digits2_pos p)) - 1)%Z
      with (Z.succ (Z.pos (digits2_pos p) - 1))%Z by lia.
    rewrite Z.pow_succ_r by lia. lia.
  - rewrite Pos2Z.inj_succ, Z.pow_succ_r by lia.
    replace (Z.succ (Z.pos (digits2_pos p)) - 1)%Z
      with (Z.succ (Z.pos (digits2_pos p) - 1))%Z by lia.
    rewrite Z.pow_succ_r by lia. lia.
  - simpl. lia.
Qed.

(** What [bounded] says about a mantissa and its exponent. *)
Lemma bounded_inv (m : positive) (e : Z) :
  bounded Float64.prec Float64.emax m e = true ->
  (-1074 <= e <= 971)%Z /\ (Z.pos m < 2 ^ 53)%Z /\
  (-1074 < e -> 2 ^ 52 <= Z.pos m)%Z.
Proof.
  unfold bounded, canonical_mantissa, fexp, emin, Float64.prec, Float64.emax.
  intros H. apply andb_prop in H as [Hc He].
  apply Z.eqb_eq in Hc. apply Z.leb_le in He.
  pose proof (digits2_pos_bounds m) as [Hlo Hhi].
  set (d := Z.pos (digits2_pos m)) in *.
  assert (Hd : (0 < d)%Z) by (unfold d; lia).
  assert (Hd53 : (d <= 53)%Z) by lia.
  repeat split; try lia.
  - eapply Z.lt_le_trans; [exact Hhi |].
    apply Z.pow_le_mono_r; lia.
  - intros Hn. assert (d = 53)%Z as Hd' by lia.
    rewrite Hd' in Hlo. exact Hlo.
Qed.

Lemma scaled_pos (m : positive) (e : Z) :
  (-1074 <= e)%Z -> (0 < Z.pos m * 2 ^ (e + 1074))%Z.
Proof.
  intros He. apply Z.mul_pos_pos; [lia |]. apply Z.pow_pos_nonneg; lia.
Qed.

Lemma scaled_lt_of_exp_lt (m1 m2 : positive) (e1 e2 : Z) :
  bounded Float64.prec Float64.emax m1 e1 = true ->
  bounded Float64.prec Float64.emax m2 e2 = true ->
  (e1 < e2)%Z ->
  (Z.pos m1 * 2 ^ (e1 + 1074) < Z.pos m2 * 2 ^ (e2 + 1074))%Z.
Proof.
  intros H1 H2 Hlt.
  apply bounded_inv in H1 as (He1 & Hm1 & _).
  apply bounded_inv in H2 as (He2 & _ & Hm2).
  specialize (Hm2 ltac:(lia)).
  assert (Hp1 : (0 < 2 ^ (e1 + 1074))%Z) by (apply Z.pow_pos_nonneg; lia).
  assert (Hp2 : (0 < 2 ^ (e2 + 1074))%Z) by (apply Z.pow_pos_nonneg; lia).
  assert (Hstep : (2 ^ 53 * 2 ^ (e1 + 1074) <= 2 ^ 52 * 2 ^ (e2 + 1074))%Z).
  { rewrite <- !Z.pow_add_r by lia. apply Z.pow_le_mono_r; lia. }
  eapply Z.lt_le_trans; [| eapply Z.le_trans; [exact Hstep |]].
  - apply Z.mul_lt_mono_pos_r; assumption.
  - apply Z.mul_le_mono_nonneg_r; lia.
Qed.

Lemma compare_scaled_pos (m1 m2 : positive) (e1 e2 : Z) :
  bounded Float64.prec Float64.emax m1 e1 = true ->
  bounded Float64.prec Float64.emax m2 e2 = true ->
  match (e1 ?= e2)%Z with
  | Lt => Lt
  | Gt => Gt
  | Eq => Pos.compare_cont Eq m1 m2
  end = (Z.pos m1 * 2 ^ (e1 + 1074) ?= Z.pos m2 * 2 ^ (e2 + 1074))%Z.
Proof.
  intros H1 H2. destruct (Z.compare_spec e1 e2) as [-> | Hlt | Hgt].
  - pose proof (bounded_inv _ _ H2) as (He & _ & _).
    assert (Hp : (0 < 2 ^ (e2 + 1074))%Z) by (apply Z.pow_pos_nonneg; lia).
    change (Pos.compare_cont Eq m1 m2) with (Z.pos m1 ?= Z.pos m2)%Z.
    apply Zmult_compare_compat_r. lia.
  - symmetry. apply Z.compare_lt_iff. now apply scaled_lt_of_exp_lt.
  - symmetry. apply Z.compare_gt_iff. now apply scaled_lt_of_exp_lt.
Qed.

(** On finite float64 values the comparison is the comparison of the
    values. *)
Lemma SFcompare_scaled (x y : Float64.t) :
  Float64.valid x = true -> Float64.valid y = true ->
  Float64.is_finite x = true -> Float64.is_finite y = true ->
  SFcompare x y = Some (Float64.scaled x ?= Float64.scaled y)%Z.
Proof.
  destruct x as [sx | sx | | sx mx ex], y as [sy | sy | | sy my ey];
    try discriminate;
    unfold Float64.valid, valid_binary, SFcompare, Float64.scaled;
    intros Hx Hy _ _.
  - reflexivity.
  - pose proof (bounded_inv _ _ Hy) as (He & _ & _).
    pose proof (scaled_pos my ey ltac:(lia)).
    destruct sy; unfold cond_Zopp; f_equal; symmetry;
      [apply Z.compare_gt_iff | apply Z.compare_lt_iff]; lia.
  - pose proof (bounded_inv _ _ Hx) as (He & _ & _).
    pose proof (scaled_pos mx ex ltac:(lia)).
    destruct sx; unfold cond_Zopp; f_equal; symmetry;
      [apply Z.compare_lt_iff | apply Z.compare_gt_iff]; lia.
  - pose proof (bounded_inv _ _ Hx) as (Hex & _ & _).
    pose proof (bounded_inv _ _ Hy) as (Hey & _ & _).
    pose proof (scaled_pos mx ex ltac:(lia)).
    pose proof (scaled_pos my ey ltac:(lia)).
    destruct sx, sy; unfold cond_Zopp; f_equal.
    + rewrite Z.compare_opp, <- (compare_scaled_pos _ _ _ _ Hy Hx).
      rewrite (Z.compare_antisym ex ey).
      destruct (ex ?= ey)%Z; simpl; try reflexivity.
      symmetry. exact (ZC4 my mx).
    + symmetry. apply Z.compare_lt_iff. lia.
    + symmetry. apply Z.compare_gt_iff. lia.
    + apply compare_scaled_pos; assumption.
Qed.

Lemma ulp_min_pos : (0 < Float64.ulp_min)%Q.
Proof. unfold Float64.ulp_min. reflexivity. Qed.

Lemma value_scaled (x : Float64.t) (q : Q) :
  Float64.valid x = true -> Float64.value x = Some q ->
  (q == inject_Z (Float64.scaled x) * Float64.ulp_min)%Q.
Proof.
  destruct x as [s | s | | s m e]; simpl; try discriminate.
  - intros _ [= <-]. ring.
  - intros Hb [= <-].
    apply bounded_inv in Hb as (He & _ & _).
    assert (Hq : (inject_Z (Z.pos m) * Qpower 2 e
                  == inject_Z (Z.pos m * 2 ^ (e + 1074)) * Float64.ulp_min)%Q).
    { unfold Float64.ulp_min.
      replace e with ((e + 1074) + (-1074))%Z at 1 by lia.
      rewrite Qpower_plus by discriminate.
      rewrite inject_Z_mult, Zpower_Qpower by lia.
      change (inject_Z 2) with 2%Q. ring. }
    destruct s; unfold cond_Zopp.
    + rewrite Hq, inject_Z_opp. ring.
    + exact Hq.
Qed.

Lemma value_is_finite (x : Float64.t) (q : Q) :
  Float64.value x = Some q -> Float64.is_finite x = true.
Proof. destruct x; simpl; congruence. Qed.

Lemma is_finite_value (x : Float64.t) :
  Float64.is_finite x = true -> exists q, Float64.value x = Some q.
Proof. destruct x; simpl; try discriminate; eauto. Qed.

Lemma scaled_le_iff (a b : Z) :
  (inject_Z a * Float64.ulp_min <= inject_Z b * Float64.ulp_min)%Q <-> (a <= b)%Z.
Proof.
  rewrite Qmult_le_r by exact ulp_min_pos. now rewrite <- Zle_Qle.
Qed.

(** [<=] on finite float64 values is [<=] on the rationals they denote. *)
Lemma le_value (x y : Float64.t) (qx qy : Q) :
  Float64.valid x = true -> Float64.valid y = true ->
  Float64.value x = Some qx -> Float64.value y = Some qy ->
  Float64.le x y = true <-> (qx <= qy)%Q.
Proof.
  intros Vx Vy Hx Hy.
  rewrite (value_scaled x qx Vx Hx), (value_scaled y qy Vy Hy), scaled_le_iff.
  unfold Float64.le, SFleb.
  rewrite (SFcompare_scaled x y Vx Vy (value_is_finite _ _ Hx) (value_is_finite _ _ Hy)).
  destruct (Z.compare_spec (Float64.scaled x) (Float64.scaled y)); split; intros; try lia; try discriminate; reflexivity.
Qed.

Lemma representable_finite (z : Z) :
  Float64.representable z -> Float64.is_finite (Float64.of_Z z) = true.
Proof. intros (_ & q & Hq & _). exact (value_is_finite _ _ Hq). Qed.

Lemma finite_not_nan (x : Float64.t) :
  Float64.is_finite x = true -> Float64.is_nan x = false.
Proof. now destruct x. Qed.

(** Between bounds that convert exactly, the float64 comparisons
    [lo <= x && x <= hi] hold exactly for the numbers of the interval. *)
Lemma within_in_range (lo hi : Z) (x : Float64.t) :
  Float64.representable lo -> Float64.representable hi ->
  Float64.valid x = true ->
  Float64.within lo hi x = true <-> Float64.in_range lo hi x.
Proof.
  intros Rlo Rhi Vx.
  pose proof (representable_finite _ Rlo) as Flo.
  pose proof (representable_finite _ Rhi) as Fhi.
  destruct Rlo as (Vlo & ql & Hql & Eql), Rhi as (Vhi & qh & Hqh & Eqh).
  unfold Float64.within, Float64.in_range, Float64.ge.
  destruct (Float64.is_finite x) eqn:Fx.
  - destruct (is_finite_value x Fx) as [q Hq].
    rewrite andb_true_iff.
    fold (Float64.le (Float64.of_Z lo) x).
    rewrite (le_value _ _ ql q Vlo Vx Hql Hq), (le_value _ _ q qh Vx Vhi Hq Hqh).
    rewrite Eql, Eqh. split.
    + intros H. exists q. split; [exact Hq | exact H].
    + intros (q' & Hq' & H). rewrite Hq in Hq'. now injection Hq' as <-.
  - split.
    + intros H. exfalso. revert H.
      destruct x as [s | s | | s m e]; try discriminate Fx;
        destruct (Float64.of_Z lo) as [sl | sl | | sl ml el]; try discriminate Flo;
        destruct (Float64.of_Z hi) as [sh | sh | | sh mh eh]; try discriminate Fhi;
        repeat match goal with b : bool |- _ => destruct b end;
        simpl; discriminate.
    + intros (q & Hq & _). rewrite (value_is_finite _ _ Hq) in Fx. discriminate.
Qed.

Lemma representable_180 : Float64.representable 180.
Proof. split; [reflexivity | eexists; split; reflexivity]. Qed.

Lemma representable_m180 : Float64.representable (-180).
Proof. split; [reflexivity | eexists; split; reflexivity]. Qed.

Lemma representable_90 : Float64.representable 90.
Proof. split; [reflexivity | eexists; split; reflexivity]. Qed.

Lemma representable_m90 : Float64.representable (-90).
Proof. split; [reflexivity | eexists; split; reflexivity]. Qed.

(** ** Coords.Validate *)

(** [Coords.Validate] in terms of the two range checks. *)
Lemma Coords_Validate_checks (c : Coords.t) :
  Coords.Validate c =
  if negb (Float64.is_nan (Coords.Latitude c)
           || Float64.within (-180) 180 (Coords.Latitude c))
  then Some (errorString "invalid latitude")
  else if negb (Float64.is_nan (Coords.Longitude c)
                || Float64.within (-90) 90 (Coords.Longitude c))
  then Some (errorString "invalid longitude")
  else None.
Proof.
  unfold Coords.Validate.
  rewrite (range_check (-180) 180), (range_check (-90) 90) by reflexivity.
  reflexivity.
Qed.

Lemma Coords_Validate_None (c : Coords.t) :
  Coords.Validate c = None <->
  (Float64.is_nan (Coords.Latitude c)
   || Float64.within (-180) 180 (Coords.Latitude c) = true) /\
  (Float64.is_nan (Coords.Longitude c)
   || Float64.within (-90) 90 (Coords.Longitude c) = true).
Proof.
  rewrite Coords_Validate_checks.
  destruct (Float64.is_nan (Coords.Latitude c)
            || Float64.within (-180) 180 (Coords.Latitude c));
    destruct (Float64.is_nan (Coords.Longitude c)
              || Float64.within (-90) 90 (Coords.Longitude c));
    simpl; split; intros; try discriminate; intuition congruence.
Qed.

(** A coordinate pair of valid float64 values passes [Coords.Validate]
    exactly when each coordinate is NaN or a number of its range. *)
Lemma Coords_Validate_in_range (c : Coords.t) :
  Float64.valid (Coords.Latitude c) = true ->
  Float64.valid (Coords.Longitude c) = true ->
  Coords.Validate c = None <->
  (Float64.is_nan (Coords.Latitude c) = true
   \/ Float64.in_range (-180) 180 (Coords.Latitude c)) /\
  (Float64.is_nan (Coords.Longitude c) = true
   \/ Float64.in_range (-90) 90 (Coords.Longitude c)).
Proof.
  intros Vlat Vlon.
  rewrite Coords_Validate_None, !orb_true_iff.
  rewrite (within_in_range (-180) 180 _ representable_m180 representable_180 Vlat).
  rewrite (within_in_range (-90) 90 _ representable_m90 representable_90 Vlon).
  reflexivity.
Qed.

Lemma in_range_not_nan (lo hi : Z) (x : Float64.t) :
  Float64.in_range lo hi x -> Float64.is_nan x = false.
Proof.
  intros (q & Hq & _). apply finite_not_nan. exact (value_is_finite _ _ Hq).
Qed.

(** X1: for coordinates that are valid float64 values other than NaN,
    [Coords.Validate] succeeds if and only if the latitude lies in
    [-180, 180] and the longitude lies in [-90, 90]. *)
Lemma Coords_Validate_iff_in_range_of_numbers (c : Coords.t) :
  Float64.valid (Coords.Latitude c) = true ->
  Float64.valid (Coords.Longitude c) = true ->
  Float64.is_nan (Coords.Latitude c) = false ->
  Float64.is_nan (Coords.Longitude c) = false ->
  Coords.Validate c = None <->
  Float64.in_range (-180) 180 (Coords.Latitude c) /\
  Float64.in_range (-90) 90 (Coords.Longitude c).
Proof.
  intros Vlat Vlon Nlat Nlon.
  rewrite (Coords_Validate_in_range c Vlat Vlon), Nlat, Nlon.
  intuition discriminate.
Qed.

(** X1 at latitude 59 and longitude 30. *)
Lemma Coords_Validate_iff_in_range_of_numbers_witness :
  Coords.Validate sample_location = None <->
  Float64.in_range (-180) 180 (Coords.Latitude sample_location) /\
  Float64.in_range (-90) 90 (Coords.Longitude sample_location).
Proof.
  apply (Coords_Validate_iff_in_range_of_numbers sample_location);
    reflexivity.
Defined.

(** C2 at the failing input: a NaN latitude is a number of no interval, in
    particular not of [-180, 180], and [Coords.Validate] accepts it all the
    same. *)
Theorem Coords_Validate_accepts_NaN_latitude :
  Float64.valid (Coords.Latitude nan_latitude) = true /\
  Float64.valid (Coords.Longitude nan_latitude) = true /\
  ~ Float64.in_range (-180) 180 (Coords.Latitude nan_latitude) /\
  Float64.within (-180) 180 (Coords.Latitude nan_latitude) = false /\
  Coords.Validate nan_latitude = None.
Proof.
  repeat split; try reflexivity.
  intros (q & Hq & _). discriminate Hq.
Qed.

Lemma is_nan_eq (x : Float64.t) : Float64.is_nan x = true -> x = Float64.NaN.
Proof. destruct x; simpl; try discriminate. reflexivity. Qed.

(** Both comparisons of a range check are false on NaN, which is a number
    of no interval. *)
Lemma NaN_escapes_range_check (lo hi : Z) :
  Float64.lt Float64.NaN (Float64.of_Z lo) = false /\
  Float64.gt Float64.NaN (Float64.of_Z hi) = false /\
  ~ Float64.in_range lo hi Float64.NaN.
Proof.
  unfold Float64.lt, Float64.gt, SFltb, Float64.NaN.
  rewrite SFcompare_nan_l, SFcompare_nan_r. repeat split.
  intros (q & Hq & _). discriminate Hq.
Qed.

(** ** Marker.Normalize *)

(** C9: [Normalize] keeps [ID], [Name] and [Location]; it keeps a non-nil
    [Images], turns a nil [Images] into the empty sequence and changes
    [Images] in no other case; hence it is idempotent. *)
Theorem Normalize_frame_and_idempotent (m : Marker.t) :
  Marker.ID (Marker.Normalize m) = Marker.ID m /\
  Marker.Name (Marker.Normalize m) = Marker.Name m /\
  Marker.Location (Marker.Normalize m) = Marker.Location m /\
  (forall xs, Marker.Images m = Some xs ->
              Marker.Images (Marker.Normalize m) = Some xs) /\
  (Marker.Images m = None -> Marker.Images (Marker.Normalize m) = Some []) /\
  (Marker.Images (Marker.Normalize m) <> Marker.Images m ->
   Marker.Images m = None) /\
  Marker.Normalize (Marker.Normalize m) = Marker.Normalize m.
Proof.
  destruct m as [id name loc [xs | ]]; unfold Marker.Normalize; simpl;
    repeat split; try congruence; intros H; now elim H.
Qed.

(** C9 on a payload without images. *)
Lemma Normalize_frame_and_idempotent_witness :
  Marker.Normalize cafe
  = {| Marker.ID := "a"; Marker.Name := "cafe";
       Marker.Location := sample_location; Marker.Images := Some [] |} /\
  Marker.Normalize (Marker.Normalize cafe) = Marker.Normalize cafe.
Proof.
  destruct (Normalize_frame_and_idempotent cafe)
    as (_ & _ & _ & _ & _ & _ & Hidem).
  split; [reflexivity | exact Hidem].
Defined.

Lemma Normalize_images (m : Marker.t) :
  Marker.Images (Marker.Normalize m) = Some (range (Marker.Images m)).
Proof. now destruct m as [id name loc [xs | ]]. Qed.

Lemma Normalize_non_nil (m : Marker.t) :
  Marker.Images m <> None -> Marker.Normalize m = m.
Proof.
  destruct m as [id name loc [xs | ]]; simpl; [reflexivity | congruence].
Qed.

(** ** Image.Validate and Marker.Validate *)

Lemma Image_Validate_None (i : Image.t) :
  Image.Validate i = None <->
  Image.ID i <> "" /\ Image.URI i <> "" /\ 0 < Image.Width i /\ 0 < Image.Height i.
Proof.
  unfold Image.Validate.
  destruct (String.eqb_spec (Image.ID i) ""); [intuition discriminate |].
  destruct (String.eqb_spec (Image.URI i) ""); [intuition discriminate |].
  destruct (Z.leb_spec (Image.Width i) 0); simpl; [intuition (discriminate || lia) |].
  destruct (Z.leb_spec (Image.Height i) 0); simpl; [intuition (discriminate || lia) |].
  intuition.
Qed.

Lemma Image_Validate_order (i : Image.t) :
  (Image.ID i = "" -> Image.Validate i = Some (errorString "empty id")) /\
  (Image.ID i <> "" -> Image.URI i = "" ->
   Image.Validate i = Some (errorString "empty uri")) /\
  (Image.ID i <> "" -> Image.URI i <> "" ->
   Image.Width i <= 0 \/ Image.Height i <= 0 ->
   Image.Validate i = Some (errorString "invalid dimensions")).
Proof.
  unfold Image.Validate. repeat split.
  - intros ->. reflexivity.
  - intros Hid ->. apply String.eqb_neq in Hid. now rewrite Hid.
  - intros Hid Huri Hdim.
    apply String.eqb_neq in Hid, Huri. rewrite Hid, Huri.
    assert ((Image.Width i <=? 0) || (Image.Height i <=? 0) = true) as ->;
      [| reflexivity].
    apply orb_true_iff. destruct Hdim; [left | right]; now apply Z.leb_le.
Qed.

(** The loop stops at the first image that fails and names it. *)
Lemma validate_images_first (pre post : list Image.t) (i : Image.t) (err : error) :
  Forall (fun j => Image.Validate j = None) pre ->
  Image.Validate i = Some err ->
  Marker.validate_images (pre ++ i :: post)
  = Some (Errorf_w ("invalid image " +:+ Image.ID i +:+ ": ") err).
Proof.
  intros Hpre Hi. induction Hpre as [| j pre Hj _ IH]; simpl.
  - now rewrite Hi.
  - now rewrite Hj.
Qed.

Lemma validate_images_None (images : list Image.t) :
  Marker.validate_images images = None <->
  Forall (fun j => Image.Validate j = None) images.
Proof.
  induction images as [| j rest IH]; simpl.
  - split; [constructor | reflexivity].
  - destruct (Image.Validate j) eqn:Hj.
    + split; [discriminate |]. intros H.
      apply Forall_inv in H. simpl in H. congruence.
    + rewrite IH. split; [now constructor |]. intros H.
      now apply Forall_inv_tail in H.
Qed.

(** A failing loop failed at some image, after passing all earlier ones. *)
Lemma validate_images_Some (images : list Image.t) (e : error) :
  Marker.validate_images images = Some e ->
  exists (pre : list Image.t) (i : Image.t) (post : list Image.t) (err : error),
    images = (pre ++ i :: post)%list /\
    Forall (fun j => Image.Validate j = None) pre /\
    Image.Validate i = Some err /\
    e = Errorf_w ("invalid image " +:+ Image.ID i +:+ ": ") err.
Proof.
  induction images as [| j rest IH]; simpl; [discriminate |].
  destruct (Image.Validate j) eqn:Hj.
  - intros [= <-]. exists [], j, rest, e0. now repeat split.
  - intros H. destruct (IH H) as (pre & i & post & err & -> & Hpre & Hi & ->).
    exists (j :: pre), i, post, err. repeat split; try assumption.
    now constructor.
Qed.

Lemma append_assoc (a b c : string) : (a +:+ b) +:+ c = a +:+ b +:+ c.
Proof.
  induction a as [| ch a IH]; [reflexivity |].
  change (String ch ((a +:+ b) +:+ c) = String ch (a +:+ b +:+ c)).
  now rewrite IH.
Qed.

Lemma image_error_names_id (id : string) (err : error) :
  contains (Error (Errorf_w ("invalid image " +:+ id +:+ ": ") err)) id.
Proof.
  exists "invalid image ", (": " +:+ Error err).
  unfold Errorf_w, Error. now rewrite !append_assoc.
Qed.

Lemma Marker_Validate_None (m : Marker.t) :
  Marker.Validate m = None <->
  Marker.ID m <> "" /\ Marker.Name m <> "" /\
  Coords.Validate (Marker.Location m) = None /\
  Forall (fun j => Image.Validate j = None) (range (Marker.Images m)).
Proof.
  unfold Marker.Validate.
  destruct (String.eqb_spec (Marker.ID m) ""); [intuition discriminate |].
  destruct (String.eqb_spec (Marker.Name m) ""); [intuition discriminate |].
  destruct (Coords.Validate (Marker.Location m)); [intuition discriminate |].
  rewrite validate_images_None. intuition.
Qed.

(** C3: [Marker.Validate] checks the id, then the name, then the location,
    then the images in sequence order, and returns the error of the first
    check that fails; an image is checked for its id, then its uri, then its
    dimensions; the error of a failing image carries that image's id in its
    message. *)
Theorem Marker_Validate_first_violation (m : Marker.t) :
  (Marker.ID m = "" -> Marker.Validate m = Some (errorString "empty id")) /\
  (Marker.ID m <> "" -> Marker.Name m = "" ->
   Marker.Validate m = Some (errorString "empty name")) /\
  (Marker.ID m <> "" -> Marker.Name m <> "" ->
   forall err, Coords.Validate (Marker.Location m) = Some err ->
   Marker.Validate m = Some (Errorf_w "invalid location: " err)) /\
  (Marker.ID m <> "" -> Marker.Name m <> "" ->
   Coords.Validate (Marker.Location m) = None ->
   forall (pre : list Image.t) (i : Image.t) (post : list Image.t) (err : error),
   range (Marker.Images m) = (pre ++ i :: post)%list ->
   Forall (fun j => Image.Validate j = None) pre ->
   Image.Validate i = Some err ->
   Marker.Validate m
   = Some (Errorf_w ("invalid image " +:+ Image.ID i +:+ ": ") err) /\
   contains (Error (Errorf_w ("invalid image " +:+ Image.ID i +:+ ": ") err))
            (Image.ID i)) /\
  (Marker.Validate m = None <->
   Marker.ID m <> "" /\ Marker.Name m <> "" /\
   Coords.Validate (Marker.Location m) = None /\
   Forall (fun j => Image.Validate j = None) (range (Marker.Images m))) /\
  (forall i : Image.t,
   (Image.ID i = "" -> Image.Validate i = Some (errorString "empty id")) /\
   (Image.ID i <> "" -> Image.URI i = "" ->
    Image.Validate i = Some (errorString "empty uri")) /\
   (Image.ID i <> "" -> Image.URI i <> "" ->
    Image.Width i <= 0 \/ Image.Height i <= 0 ->
    Image.Validate i = Some (errorString "invalid dimensions")) /\
   (Image.Validate i = None <->
    Image.ID i <> "" /\ Image.URI i <> "" /\
    0 < Image.Width i /\ 0 < Image.Height i)).
Proof.
  split; [| split; [| split; [| split; [| split]]]];
    try unfold Marker.Validate at 1.
  - intros ->. reflexivity.
  - intros Hid ->. apply String.eqb_neq in Hid. now rewrite Hid.
  - intros Hid Hname err Hloc.
    apply String.eqb_neq in Hid, Hname. now rewrite Hid, Hname, Hloc.
  - intros Hid Hname Hloc pre i post err Himgs Hpre Hi.
    apply String.eqb_neq in Hid, Hname. rewrite Hid, Hname, Hloc, Himgs.
    split; [now apply validate_images_first | apply image_error_names_id].
  - apply Marker_Validate_None.
  - intros i. pose proof (Image_Validate_order i) as (H1 & H2 & H3).
    split; [| split; [| split]]; try assumption. apply Image_Validate_None.
Qed.

(** C3 on a payload whose second and third images both fail: the error is
    the one of the second image and names it. *)
Lemma Marker_Validate_first_violation_witness :
  Marker.Validate album
  = Some (wrapError "invalid image p2: invalid dimensions"
            (errorString "invalid dimensions")) /\
  contains "invalid image p2: invalid dimensions" "p2".
Proof.
  destruct (Marker_Validate_first_violation album)
    as (_ & _ & _ & Himage & _).
  apply (Himage ltac:(discriminate) ltac:(discriminate) eq_refl
           [photo] flat [blank] (errorString "invalid dimensions")).
  - reflexivity.
  - repeat constructor.
  - reflexivity.
Defined.

(** ** NaN coordinates *)

(** C10, as stated, fails: a NaN latitude does not make validation succeed
    when the longitude is out of range. *)
Lemma Coords_Validate_rejects_NaN_latitude_far_longitude :
  Float64.is_nan (Coords.Latitude nan_latitude_far_longitude) = true /\
  Coords.Validate nan_latitude_far_longitude
  = Some (errorString "invalid longitude").
Proof. split; reflexivity. Qed.

(** C10, amended: a NaN coordinate passes its own range check, both of its
    comparisons being false, although it lies in no range; so a pair with a
    NaN coordinate passes [Coords.Validate] exactly when the other coordinate
    is NaN too or lies in its range, and a marker with such a location and
    otherwise valid fields passes [Marker.Validate]. *)
Theorem Coords_Validate_NaN_coordinate (c : Coords.t) :
  Float64.valid (Coords.Latitude c) = true ->
  Float64.valid (Coords.Longitude c) = true ->
  (Float64.is_nan (Coords.Latitude c) = true ->
   Float64.lt (Coords.Latitude c) (Float64.of_Z (-180)) = false /\
   Float64.gt (Coords.Latitude c) (Float64.of_Z 180) = false /\
   ~ Float64.in_range (-180) 180 (Coords.Latitude c) /\
   (Coords.Validate c = None <->
    Float64.is_nan (Coords.Longitude c) = true
    \/ Float64.in_range (-90) 90 (Coords.Longitude c))) /\
  (Float64.is_nan (Coords.Longitude c) = true ->
   Float64.lt (Coords.Longitude c) (Float64.of_Z (-90)) = false /\
   Float64.gt (Coords.Longitude c) (Float64.of_Z 90) = false /\
   ~ Float64.in_range (-90) 90 (Coords.Longitude c) /\
   (Coords.Validate c = None <->
    Float64.is_nan (Coords.Latitude c) = true
    \/ Float64.in_range (-180) 180 (Coords.Latitude c))) /\
  (forall m : Marker.t,
   Marker.Location m = c ->
   Float64.is_nan (Coords.Latitude c) = true
   \/ Float64.is_nan (Coords.Longitude c) = true ->
   Coords.Validate c = None ->
   Marker.ID m <> "" -> Marker.Name m <> "" ->
   Forall (fun j => Image.Validate j = None) (range (Marker.Images m)) ->
   Marker.Validate m = None /\
   ~ (Float64.in_range (-180) 180 (Coords.Latitude c) /\
      Float64.in_range (-90) 90 (Coords.Longitude c))).
Proof.
  intros Vlat Vlon.
  pose proof (Coords_Validate_in_range c Vlat Vlon) as Hiff.
  split; [| split].
  - intros Hnan. pose proof (is_nan_eq _ Hnan) as Heq.
    destruct (NaN_escapes_range_check (-180) 180) as (H1 & H2 & H3).
    rewrite Heq. repeat split; try assumption.
    + rewrite Hiff. intros [_ H]. exact H.
    + rewrite Hiff. intros H. split; [now left | exact H].
  - intros Hnan. pose proof (is_nan_eq _ Hnan) as Heq.
    destruct (NaN_escapes_range_check (-90) 90) as (H1 & H2 & H3).
    rewrite Heq. repeat split; try assumption.
    + rewrite Hiff. intros [H _]. exact H.
    + rewrite Hiff. intros H. split; [exact H | now left].
  - intros m Hloc Hnan Hc Hid Hname Himgs. split.
    + unfold Marker.Validate.
      apply String.eqb_neq in Hid, Hname. rewrite Hid, Hname, Hloc, Hc.
      now apply validate_images_None.
    + intros [Hlat Hlon].
      apply in_range_not_nan in Hlat, Hlon.
      destruct Hnan; congruence.
Qed.

(** The amended C10 at a NaN latitude with longitude [0]. *)
Lemma Coords_Validate_NaN_coordinate_witness :
  Float64.valid (Coords.Latitude nan_latitude) = true /\
  Float64.valid (Coords.Longitude nan_latitude) = true /\
  (Coords.Validate nan_latitude = None <->
   Float64.is_nan (Coords.Longitude nan_latitude) = true
   \/ Float64.in_range (-90) 90 (Coords.Longitude nan_latitude)) /\
  Marker.Validate nowhere = None.
Proof.
  pose proof (Coords_Validate_NaN_coordinate nan_latitude eq_refl eq_refl)
    as (Hlat & _ & Hmarker).
  split; [reflexivity | split; [reflexivity | split]].
  - apply Hlat. reflexivity.
  - apply (Hmarker nowhere); try reflexivity; try discriminate.
    + now left.
    + constructor.
Defined.

(** ** Running the handlers *)

Lemma run_Return {R : Type} (B : Backend) (r : R) (s : State B) :
  run B (Return r) s
  = {| result := r; final := s; calls := []; logged := [] |}.
Proof. reflexivity. Qed.

Lemma run_Db {R : Type} (B : Backend) (o : DbOp) (k : DbRet o -> Handler R)
    (s s' : State B) (x : DbRet o) :
  exec B o s = (x, s') ->
  run B (Db o k) s
  = {| result := result (run B (k x) s'); final := final (run B (k x) s');
       calls := o :: calls (run B (k x) s');
       logged := logged (run B (k x) s') |}.
Proof. intros H. simpl. now rewrite H. Qed.

Lemma run_Log {R : Type} (B : Backend) (lvl : Level) (v : Logged)
    (k : Handler R) (s : State B) :
  run B (Log lvl v k) s
  = {| result := result (run B k s); final := final (run B k s);
       calls := calls (run B k s);
       logged := (lvl, v) :: logged (run B k s) |}.
Proof. reflexivity. Qed.

(** The handler of a create request whose body binds and validates: one
    insert of the normalised body, answered by the store. *)
Lemma POST_valid (c : Context) (body : Marker.t) :
  Bind c = inr body -> Marker.Validate body = None ->
  POST c
  = Db (InsertOne (Marker.Normalize body))
       (fun r : option error =>
          match r with
          | Some err =>
              if is_duplicate_key err
              then Log INFO (LogStr "duplicated id")
                     (JSON http.StatusBadRequest (ErrorStringBody "duplicated id"))
              else Log ERROR (LogErr err)
                     (JSON http.StatusServiceUnavailable (ErrorBody err))
          | None => NoContent http.StatusCreated
          end).
Proof. intros Hb Hv. unfold POST. now rewrite Hb, Hv. Qed.

(** When [errors.As] and [HasErrorCode(11000)] hold of an error: a write
    exception on its chain carries the code, in its write-concern error or in
    one of its write errors. *)
Lemma is_duplicate_key_iff (err : error) :
  is_duplicate_key err = true <->
  exists mwe : mongo.WriteException,
    errors_As err = Some mwe /\
    ((exists wce, mongo.WriteConcernError_ mwe = Some wce
                  /\ mongo.wcCode wce = 11000)
     \/ Exists (fun we => mongo.Code we = 11000) (mongo.WriteErrors mwe)).
Proof.
  unfold is_duplicate_key, mongo.HasErrorCode.
  destruct (errors_As err) as [mwe |].
  - assert (Hex : existsb (fun we => mongo.Code we =? 11000) (mongo.WriteErrors mwe) = true
                  <-> Exists (fun we => mongo.Code we = 11000) (mongo.WriteErrors mwe)).
    { rewrite existsb_exists, Lists.List.Exists_exists.
      split; intros (we & Hin & Hc); exists we; split; try assumption;
        now apply Z.eqb_eq. }
    split.
    + intros H. exists mwe. split; [reflexivity |].
      destruct (mongo.WriteConcernError_ mwe) as [wce |].
      * destruct (Z.eqb_spec (mongo.wcCode wce) 11000).
        -- left. now exists wce.
        -- right. now apply Hex.
      * right. now apply Hex.
    + intros (mwe' & [= <-] & [(wce & Hw & Hc) | Hw]).
      * rewrite Hw. apply Z.eqb_eq in Hc. now rewrite Hc.
      * apply Hex in Hw.
        destruct (mongo.WriteConcernError_ mwe) as [wce |]; [| exact Hw].
        now destruct (mongo.wcCode wce =? 11000).
  - split; [discriminate |]. now intros (mwe & [=] & _).
Qed.



(** ** Update: the id of the path against the id of the body *)

(** C5: an Update whose body deserializes to a marker whose id is not the
    id of the path answers 400 with the message "id in path and body doesn't
    match" and calls the store not at all; nothing is assumed about the
    validity of the body, so the check comes before validation. *)
Theorem Update_id_mismatch (B : Backend) (c : Context) (body : Marker.t)
    (s : State B) :
  Bind c = inr body ->
  Marker.ID body <> Param c "id" ->
  run B (PUT c) s
  = {| result := {| Status := 400;
                    Payload := ErrorStringBody
                                 "id in path and body doesn't match" |};
       final := s;
       calls := [];
       logged := [(INFO, LogStr "id in path and body doesn't match")] |}.
Proof.
  intros Hb Hne. unfold PUT. rewrite Hb.
  apply String.eqb_neq in Hne. rewrite Hne. reflexivity.
Qed.

(** C5 on a body that would also fail validation: the mismatch is what the
    response reports. *)
Lemma Update_id_mismatch_witness :
  Marker.Validate nameless = Some (errorString "empty name") /\
  run MemStore (PUT (request "z" nameless)) {[ "b" := cafe ]}
  = {| result := {| Status := 400;
                    Payload := ErrorStringBody
                                 "id in path and body doesn't match" |};
       final := {[ "b" := cafe ]};
       calls := [];
       logged := [(INFO, LogStr "id in path and body doesn't match")] |}.
Proof.
  split; [reflexivity |].
  apply (Update_id_mismatch MemStore (request "z" nameless) nameless);
    [reflexivity | discriminate].
Defined.

(** The checks around it: a body that does not deserialize is reported
    first, and a body with the id of the path is validated next. *)
Lemma Update_malformed_body (B : Backend) (c : Context) (err : error)
    (s : State B) :
  Bind c = inl err ->
  run B (PUT c) s
  = {| result := {| Status := 400; Payload := ErrorBody err |};
       final := s; calls := []; logged := [(INFO, LogErr err)] |}.
Proof. intros Hb. unfold PUT. now rewrite Hb. Qed.

Lemma Update_invalid_body (B : Backend) (c : Context) (body : Marker.t)
    (err : error) (s : State B) :
  Bind c = inr body ->
  Marker.ID body = Param c "id" ->
  Marker.Validate body = Some err ->
  run B (PUT c) s
  = {| result := {| Status := 400; Payload := ErrorBody err |};
       final := s; calls := []; logged := [(INFO, LogErr err)] |}.
Proof.
  intros Hb Hid Hv. unfold PUT. rewrite Hb, <- Hid, String.eqb_refl, Hv.
  reflexivity.
Qed.

(** ** List *)

(** The encoder accepts a marker exactly when its coordinates are
    numbers. *)
Lemma marshal_images_Some (images : slice Image.t) :
  exists j : json, marshal_slice marshal_Image images = Some j.
Proof.
  destruct images as [xs |]; simpl; [| eauto].
  assert (H : exists js, marshal_each marshal_Image xs = Some js).
  { induction xs as [| i xs [js IH]]; simpl; [eauto |].
    rewrite IH. eauto. }
  destruct H as [js ->]. eauto.
Qed.

Lemma marshal_Marker_finite (m : Marker.t) :
  match marshal_Marker m with
  | Some _ => finite_coords m = true
  | None => finite_coords m = false
  end.
Proof.
  unfold marshal_Marker, marshal_Coords, marshal_float64, finite_coords.
  destruct (marshal_images_Some (Marker.Images m)) as [j ->].
  destruct (Float64.is_finite (Coords.Latitude (Marker.Location m)));
    destruct (Float64.is_finite (Coords.Longitude (Marker.Location m)));
    reflexivity.
Qed.

Lemma marshal_each_Marker (docs : list Marker.t) :
  match marshal_each marshal_Marker docs with
  | Some js => forallb finite_coords docs = true /\ length js = length docs
  | None => forallb finite_coords docs = false
  end.
Proof.
  induction docs as [| m docs IH]; simpl; [now split |].
  pose proof (marshal_Marker_finite m) as Hm.
  destruct (marshal_Marker m) as [j |]; rewrite Hm; [| reflexivity].
  destruct (marshal_each marshal_Marker docs) as [js |]; simpl.
  - destruct IH as [-> ->]. now split.
  - exact IH.
Qed.

Lemma encodable_markers (docs : list Marker.t) :
  encodable (MarkersBody (Some docs)) = forallb finite_coords docs.
Proof.
  unfold encodable, marshal_results, marshal_slice.
  pose proof (marshal_each_Marker docs) as H.
  destruct (marshal_each marshal_Marker docs); [now destruct H | now rewrite H].
Qed.

(** List hands on what the store returns, in the store's order, as a slice
    that is not nil; when one of the markers has a coordinate the encoder
    refuses, the answer is 500 instead. *)
Lemma List_returns_store_documents (B : Backend) (c : Context)
    (s s1 s2 : State B) (cursor : Cursor) (docs : list Marker.t) :
  exec B Find s = (inr cursor, s1) ->
  exec B (All cursor) s1 = (inr docs, s2) ->
  result (run B (GET c) s)
  = if forallb finite_coords docs
    then {| Status := 200; Payload := MarkersBody (Some docs) |}
    else InternalServerError.
Proof.
  intros Hf Ha. unfold GET.
  rewrite (run_Db B _ _ s s1 _ Hf), (run_Db B _ _ s1 s2 _ Ha).
  replace (fill (Some []) docs) with (Some docs) by now destruct docs.
  unfold JSON. rewrite encodable_markers.
  now destruct (forallb finite_coords docs).
Qed.

(** C6: when the store matches no document, as on the empty in-memory
    store, List answers 200 with the empty array; whatever markers with
    numbers for coordinates the store matches, the answer is 200 and its
    body is an array and never [null]; when [Find] or reading the cursor
    fails, List answers 503 with that error. *)
Theorem List_empty_and_store_errors (B : Backend) (c : Context) (s : State B) :
  (forall (cursor : Cursor) (s1 s2 : State B),
   exec B Find s = (inr cursor, s1) ->
   exec B (All cursor) s1 = (inr [], s2) ->
   result (run B (GET c) s)
   = {| Status := 200; Payload := MarkersBody (Some []) |} /\
   marshal_results (Some []) = Some (JArray [])) /\
  (forall (cursor : Cursor) (docs : list Marker.t) (s1 s2 : State B),
   exec B Find s = (inr cursor, s1) ->
   exec B (All cursor) s1 = (inr docs, s2) ->
   forallb finite_coords docs = true ->
   result (run B (GET c) s)
   = {| Status := 200; Payload := MarkersBody (Some docs) |} /\
   (exists js : list json,
      marshal_results (Some docs) = Some (JArray js) /\
      length js = length docs) /\
   marshal_results (Some docs) <> Some JNull) /\
  (forall (err : error) (s1 : State B),
   exec B Find s = (inl err, s1) ->
   result (run B (GET c) s) = {| Status := 503; Payload := ErrorBody err |}) /\
  (forall (cursor : Cursor) (err : error) (s1 s2 : State B),
   exec B Find s = (inr cursor, s1) ->
   exec B (All cursor) s1 = (inl err, s2) ->
   result (run B (GET c) s) = {| Status := 503; Payload := ErrorBody err |}) /\
  result (run MemStore (GET c) ∅)
  = {| Status := 200; Payload := MarkersBody (Some []) |}.
Proof.
  split; [| split; [| split; [| split]]]; [| | | | reflexivity].
  - intros cursor s1 s2 Hf Ha.
    now rewrite (List_returns_store_documents B c s s1 s2 cursor [] Hf Ha).
  - intros cursor docs s1 s2 Hf Ha Hfin.
    rewrite (List_returns_store_documents B c s s1 s2 cursor docs Hf Ha), Hfin.
    pose proof (marshal_each_Marker docs) as Hm.
    unfold marshal_results, marshal_slice.
    destruct (marshal_each marshal_Marker docs) as [js |]; [| congruence].
    split; [reflexivity | split; [| discriminate]].
    exists js. now split.
  - unfold GET. intros err s1 Hf. now rewrite (run_Db B _ _ s s1 _ Hf).
  - unfold GET. intros cursor err s1 s2 Hf Ha.
    now rewrite (run_Db B _ _ s s1 _ Hf), (run_Db B _ _ s1 s2 _ Ha).
Qed.

(** C6 on the empty in-memory store, on a store that cannot be reached, and
    on a cursor that breaks. *)
Lemma List_empty_and_store_errors_witness :
  result (run MemStore (GET (request "" cafe)) ∅)
  = {| Status := 200; Payload := MarkersBody (Some []) |} /\
  result (run Down (GET (request "" cafe)) ∅)
  = {| Status := 503; Payload := ErrorBody unreachable |} /\
  result (run BrokenCursor (GET (request "" cafe)) {[ "a" := cafe ]})
  = {| Status := 503; Payload := ErrorBody unreachable |}.
Proof.
  pose proof (List_empty_and_store_errors MemStore (request "" cafe) ∅)
    as (Hempty & _ & _ & _ & _).
  pose proof (List_empty_and_store_errors Down (request "" cafe) ∅)
    as (_ & _ & Hfind & _ & _).
  pose proof (List_empty_and_store_errors BrokenCursor (request "" cafe)
                {[ "a" := cafe ]}) as (_ & _ & _ & Hall & _).
  split; [| split].
  - apply (Hempty [] ∅ ∅); reflexivity.
  - apply (Hfind unreachable ∅). reflexivity.
  - apply (Hall [cafe] unreachable {[ "a" := cafe ]} {[ "a" := cafe ]});
      reflexivity.
Defined.

(** ** Delete *)

(** C7: Delete issues exactly one store call, the delete by the id of the
    path, whatever the store holds; it answers 200 without a body when that
    call reports no error, and 503 with the error otherwise; on the
    in-memory store a delete of an id that is not there reports no error and
    changes nothing, and the answer is 200. *)
Theorem Delete_unconditional (B : Backend) (c : Context) (s : State B) :
  calls (run B (DELETE c) s) = [DeleteOne (Param c "id")] /\
  (forall s' : State B,
   exec B (DeleteOne (Param c "id")) s = (None, s') ->
   result (run B (DELETE c) s) = {| Status := 200; Payload := NoBody |} /\
   final (run B (DELETE c) s) = s') /\
  (forall (err : error) (s' : State B),
   exec B (DeleteOne (Param c "id")) s = (Some err, s') ->
   result (run B (DELETE c) s) = {| Status := 503; Payload := ErrorBody err |}) /\
  (forall docs : gmap string Marker.t,
   docs !! Param c "id" = None ->
   result (run MemStore (DELETE c) docs) = {| Status := 200; Payload := NoBody |} /\
   final (run MemStore (DELETE c) docs) = docs).
Proof.
  unfold DELETE. split; [| split; [| split]].
  - simpl. destruct (exec B (DeleteOne (Param c "id")) s) as [[err |] s'];
      reflexivity.
  - intros s' He. rewrite (run_Db B _ _ s s' _ He). split; reflexivity.
  - intros err s' He. now rewrite (run_Db B _ _ s s' _ He).
  - intros docs Hnone. simpl. split; [reflexivity |].
    now apply delete_id.
Qed.

(** C7 on an in-memory store that does not hold the id, and on a store that
    cannot be reached. *)
Lemma Delete_unconditional_witness :
  calls (run MemStore (DELETE (request "zz" cafe)) {[ "a" := cafe ]})
  = [DeleteOne "zz"] /\
  result (run MemStore (DELETE (request "zz" cafe)) {[ "a" := cafe ]})
  = {| Status := 200; Payload := NoBody |} /\
  final (run MemStore (DELETE (request "zz" cafe)) {[ "a" := cafe ]})
  = {[ "a" := cafe ]} /\
  result (run Down (DELETE (request "zz" cafe)) ∅)
  = {| Status := 503; Payload := ErrorBody unreachable |}.
Proof.
  pose proof (Delete_unconditional MemStore (request "zz" cafe)
                {[ "a" := cafe ]}) as (Hcalls & _ & _ & Hmissing).
  pose proof (Delete_unconditional Down (request "zz" cafe) ∅)
    as (_ & _ & Herr & _).
  destruct (Hmissing {[ "a" := cafe ]}) as [Hres Hfin];
    [vm_compute; reflexivity |].
  split; [exact Hcalls | split; [exact Hres | split; [exact Hfin |]]].
  apply (Herr unreachable ∅). reflexivity.
Defined.

(** ** Create and List *)

Lemma Normalize_range (m : Marker.t) :
  range (Marker.Images (Marker.Normalize m)) = range (Marker.Images m).
Proof. now destruct m as [id name loc [xs | ]]. Qed.

Lemma Normalize_record (m : Marker.t) :
  Marker.Normalize m
  = {| Marker.ID := Marker.ID m; Marker.Name := Marker.Name m;
       Marker.Location := Marker.Location m;
       Marker.Images := Some (range (Marker.Images m)) |}.
Proof. now destruct m as [id name loc [xs | ]]. Qed.

(** Normalisation keeps a valid marker valid. *)
Lemma Validate_Normalize (m : Marker.t) :
  Marker.Validate (Marker.Normalize m) = Marker.Validate m.
Proof.
  unfold Marker.Validate. rewrite Normalize_range.
  now destruct m as [id name loc [xs | ]].
Qed.

(** Create with a payload that binds and validates, on any store: the one
    store call is the insert of the normalised payload, and the answer is
    201 exactly when the insert reports no error. *)
Lemma Create_valid_payload (B : Backend) (c : Context) (body : Marker.t)
    (s : State B) :
  Bind c = inr body -> Marker.Validate body = None ->
  calls (run B (POST c) s) = [InsertOne (Marker.Normalize body)] /\
  final (run B (POST c) s)
  = snd (exec B (InsertOne (Marker.Normalize body)) s) /\
  (fst (exec B (InsertOne (Marker.Normalize body)) s) = None <->
   result (run B (POST c) s) = {| Status := 201; Payload := NoBody |}).
Proof.
  intros Hb Hv. rewrite (POST_valid c body Hb Hv). simpl.
  destruct (exec B (InsertOne (Marker.Normalize body)) s) as [[err |] s'];
    simpl.
  - destruct (is_duplicate_key err); simpl;
      repeat split; try reflexivity; discriminate.
  - repeat split; reflexivity.
Qed.

(** The documents of the in-memory store, as List returns them. *)
Lemma MemStore_List (missing : OnMissing) (c : Context)
    (s : gmap string Marker.t) :
  run (MemStoreWith missing) (GET c) s
  = {| result := if forallb finite_coords (snd <$> map_to_list s)
                 then {| Status := 200;
                         Payload := MarkersBody (Some (snd <$> map_to_list s)) |}
                 else InternalServerError;
       final := s;
       calls := [Find; All (snd <$> map_to_list s)];
       logged := [] |}.
Proof.
  unfold GET. cbn [run MemStoreWith exec mem_exec].
  replace (fill (Some []) (snd <$> map_to_list s))
    with (Some (snd <$> map_to_list s))
    by now destruct (snd <$> map_to_list s).
  unfold JSON. rewrite encodable_markers.
  now destruct (forallb finite_coords (snd <$> map_to_list s)).
Qed.

Lemma encodable_store_documents (s : gmap string Marker.t) :
  encodable_store s -> forallb finite_coords (snd <$> map_to_list s) = true.
Proof.
  intros Hs. apply map_Forall_to_list in Hs.
  apply forallb_forall. intros m Hin.
  apply list_elem_of_In, list_elem_of_fmap in Hin as [[id m'] [-> Hin]].
  rewrite Forall_forall in Hs. exact (Hs _ Hin).
Qed.

Lemma finite_coords_Normalize (m : Marker.t) :
  finite_coords (Marker.Normalize m) = finite_coords m.
Proof. now destruct m as [id name loc [xs | ]]. Qed.

Lemma MemStore_documents (s : gmap string Marker.t) (id : string) (m : Marker.t) :
  s !! id = Some m -> In m (snd <$> map_to_list s).
Proof.
  intros H. apply list_elem_of_In, list_elem_of_fmap.
  exists (id, m). split; [reflexivity |]. now apply elem_of_map_to_list.
Qed.

(** C1, as stated, fails: a payload that passes validation is not inserted
    when the store already holds its id. Create answers 400, and the
    collection List returns afterwards holds the earlier marker and not the
    payload. *)
Lemma Create_valid_payload_duplicate_id :
  Marker.Validate bridge = None /\
  run MemStore (POST (request "" cafe)) ∅
  = {| result := {| Status := 201; Payload := NoBody |};
       final := {[ "a" := Marker.Normalize cafe ]};
       calls := [InsertOne (Marker.Normalize cafe)];
       logged := [] |} /\
  run MemStore (POST (request "" bridge)) {[ "a" := Marker.Normalize cafe ]}
  = {| result := {| Status := 400;
                    Payload := ErrorStringBody "duplicated id" |};
       final := {[ "a" := Marker.Normalize cafe ]};
       calls := [InsertOne (Marker.Normalize bridge)];
       logged := [(INFO, LogStr "duplicated id")] |} /\
  result (run MemStore (GET (request "" cafe))
            {[ "a" := Marker.Normalize cafe ]})
  = {| Status := 200;
       Payload := MarkersBody (Some [Marker.Normalize cafe]) |} /\
  ~ In (Marker.Normalize bridge) [Marker.Normalize cafe].
Proof.
  repeat split; try (vm_compute; reflexivity).
  intros [H | []]. discriminate H.
Qed.

(** C1, amended: for every payload that passes validation and whose id the
    store does not hold yet, Create makes one store call, the insert of the
    normalised payload, which the store accepts, and answers 201; when the
    coordinates of the payload and of the markers already stored are
    numbers, a List that follows answers 200 with a collection that
    includes the payload, unchanged but for a nil image sequence that has
    become the empty one. *)
Theorem Create_then_List (c c' : Context) (body : Marker.t)
    (s : gmap string Marker.t) :
  Bind c = inr body ->
  Marker.Validate body = None ->
  s !! Marker.ID body = None ->
  run MemStore (POST c) s
  = {| result := {| Status := 201; Payload := NoBody |};
       final := <[Marker.ID body := Marker.Normalize body]> s;
       calls := [InsertOne (Marker.Normalize body)];
       logged := [] |} /\
  (finite_coords body = true ->
   encodable_store s ->
   exists results : list Marker.t,
     result (run MemStore (GET c') (final (run MemStore (POST c) s)))
     = {| Status := 200; Payload := MarkersBody (Some results) |} /\
     In {| Marker.ID := Marker.ID body; Marker.Name := Marker.Name body;
           Marker.Location := Marker.Location body;
           Marker.Images := Some (range (Marker.Images body)) |} results).
Proof.
  intros Hb Hv Hfresh.
  assert (Hrun : run MemStore (POST c) s
                 = {| result := {| Status := 201; Payload := NoBody |};
                      final := <[Marker.ID body := Marker.Normalize body]> s;
                      calls := [InsertOne (Marker.Normalize body)];
                      logged := [] |}).
  { rewrite (POST_valid c body Hb Hv).
    rewrite (run_Db MemStore (InsertOne (Marker.Normalize body)) _ s
               (<[Marker.ID body := Marker.Normalize body]> s) None).
    - reflexivity.
    - simpl. unfold mem_exec.
      replace (Marker.ID (Marker.Normalize body)) with (Marker.ID body)
        by now destruct body as [id name loc [xs | ]].
      now rewrite Hfresh. }
  split; [exact Hrun |].
  intros Hfin Hstore.
  rewrite Hrun. simpl final. unfold MemStore. rewrite MemStore_List.
  simpl result.
  rewrite encodable_store_documents.
  - eexists. split; [reflexivity |].
    rewrite <- Normalize_record.
    apply (MemStore_documents _ (Marker.ID body)).
    apply lookup_insert_eq.
  - apply map_Forall_insert_2; [| exact Hstore].
    now rewrite finite_coords_Normalize.
Qed.

(** The amended C1 on the empty store and a payload without images. *)
Lemma Create_then_List_witness :
  result (run MemStore (POST (request "" cafe)) ∅)
  = {| Status := 201; Payload := NoBody |} /\
  exists results : list Marker.t,
    result (run MemStore (GET (request "" cafe))
              (final (run MemStore (POST (request "" cafe)) ∅)))
    = {| Status := 200; Payload := MarkersBody (Some results) |} /\
    In {| Marker.ID := "a"; Marker.Name := "cafe";
          Marker.Location := sample_location; Marker.Images := Some [] |}
       results.
Proof.
  destruct (Create_then_List (request "" cafe) (request "" cafe) cafe ∅)
    as [Hrun Hlist]; try reflexivity.
  split; [exact (f_equal result Hrun) |].
  apply Hlist; [reflexivity | apply map_Forall_empty].
Defined.

(** A marker with a NaN latitude passes validation and Create stores it;
    the List that follows cannot encode it and answers 500. *)
Lemma Create_NaN_then_List :
  Marker.Validate nowhere = None /\
  result (run MemStore (POST (request "" nowhere)) ∅)
  = {| Status := 201; Payload := NoBody |} /\
  marshal_results (Some [Marker.Normalize nowhere]) = None /\
  result (run MemStore (GET (request "" nowhere))
            (final (run MemStore (POST (request "" nowhere)) ∅)))
  = {| Status := 500; Payload := MessageBody "Internal Server Error" |}.
Proof. repeat split; vm_compute; reflexivity. Qed.

(** ** What Create and Update accept *)

(** The handler of an update request whose body binds, carries the id of the
    path and validates: one replace of the normalised body. *)
Lemma PUT_valid (c : Context) (body : Marker.t) :
  Bind c = inr body ->
  Marker.ID body = Param c "id" ->
  Marker.Validate body = None ->
  PUT c
  = Db (ReplaceOne (Param c "id") (Marker.Normalize body))
       (fun r : option error =>
          match r with
          | Some err =>
              Log ERROR (LogErr err)
                (JSON http.StatusServiceUnavailable (ErrorBody err))
          | None => NoContent http.StatusOK
          end).
Proof.
  intros Hb Hid Hv. unfold PUT.
  now rewrite Hb, <- Hid, String.eqb_refl, Hv.
Qed.

Lemma valid_images_of_Validate (m : Marker.t) :
  Marker.Validate m = None -> Forall valid_image (range (Marker.Images m)).
Proof.
  intros Hv.
  apply Marker_Validate_None in Hv as (_ & _ & _ & Himgs).
  eapply Forall_impl; [exact Himgs |].
  intros i Hi. now apply Image_Validate_None.
Qed.

(** The store calls of Create: none, or the insert of a normalised valid
    payload. *)
Lemma POST_calls (B : Backend) (c : Context) (s : State B) :
  calls (run B (POST c) s) = []
  \/ exists body : Marker.t,
       Bind c = inr body /\ Marker.Validate body = None /\
       calls (run B (POST c) s) = [InsertOne (Marker.Normalize body)].
Proof.
  destruct (Bind c) as [err | body] eqn:Hb.
  - left. unfold POST. now rewrite Hb.
  - destruct (Marker.Validate body) as [err |] eqn:Hv.
    + left. unfold POST. now rewrite Hb, Hv.
    + right. exists body. repeat split; try assumption.
      apply (Create_valid_payload B c body s Hb Hv).
Qed.

(** The store calls of Update: none, or the replace of a normalised valid
    payload under its own id. *)
Lemma PUT_calls (B : Backend) (c : Context) (s : State B) :
  calls (run B (PUT c) s) = []
  \/ exists body : Marker.t,
       Bind c = inr body /\ Marker.ID body = Param c "id" /\
       Marker.Validate body = None /\
       calls (run B (PUT c) s)
       = [ReplaceOne (Param c "id") (Marker.Normalize body)].
Proof.
  destruct (Bind c) as [err | body] eqn:Hb.
  - left. unfold PUT. now rewrite Hb.
  - destruct (String.eqb_spec (Marker.ID body) (Param c "id")) as [Hid | Hne].
    + destruct (Marker.Validate body) as [err |] eqn:Hv.
      * left. now rewrite (Update_invalid_body B c body err s Hb Hid Hv).
      * right. exists body. repeat split; try assumption.
        rewrite (PUT_valid c body Hb Hid Hv). simpl.
        now destruct (exec B (ReplaceOne (Param c "id") (Marker.Normalize body)) s)
          as [[err |] s'].
    + left. unfold PUT. rewrite Hb.
      apply String.eqb_neq in Hne. now rewrite Hne.
Qed.

(** C8, as stated, fails: a marker whose two images share one id passes
    validation, Create stores it and Update stores it. *)
Lemma Create_accepts_shared_image_ids :
  Marker.Validate twins = None /\
  ~ unique_image_ids twins /\
  run MemStore (POST (request "" twins)) ∅
  = {| result := {| Status := 201; Payload := NoBody |};
       final := {[ "t" := twins ]};
       calls := [InsertOne twins];
       logged := [] |} /\
  run MemStore (PUT (request "t" twins)) {[ "t" := twins ]}
  = {| result := {| Status := 200; Payload := NoBody |};
       final := {[ "t" := twins ]};
       calls := [ReplaceOne "t" twins];
       logged := [] |}.
Proof.
  repeat split; try (vm_compute; reflexivity).
  unfold unique_image_ids. simpl. intros H.
  apply List.NoDup_cons_iff in H as [Hin _]. apply Hin. now left.
Qed.

(** C8, amended: every marker Create or Update hands to the store has passed
    validation, so each of its images has a non-empty id, a non-empty uri
    and positive width and height, and its image sequence is not nil; a
    request answered 201 by Create or 200 by Update handed such a marker to
    the store. Ids of images are not compared with one another. *)
Theorem accepted_markers_have_valid_images (B : Backend) (c : Context)
    (s : State B) :
  (forall (o : DbOp) (doc : Marker.t),
   In o (calls (run B (POST c) s) ++ calls (run B (PUT c) s))%list ->
   In doc (written o) ->
   Marker.Validate doc = None /\
   Forall valid_image (range (Marker.Images doc)) /\
   Marker.Images doc <> None) /\
  (Status (result (run B (POST c) s)) = 201 ->
   exists body : Marker.t,
     Bind c = inr body /\
     calls (run B (POST c) s) = [InsertOne (Marker.Normalize body)]) /\
  (Status (result (run B (PUT c) s)) = 200 ->
   exists body : Marker.t,
     Bind c = inr body /\
     calls (run B (PUT c) s)
     = [ReplaceOne (Marker.ID body) (Marker.Normalize body)]).
Proof.
  assert (Hdoc : forall body, Marker.Validate body = None ->
            Marker.Validate (Marker.Normalize body) = None /\
            Forall valid_image (range (Marker.Images (Marker.Normalize body))) /\
            Marker.Images (Marker.Normalize body) <> None).
  { intros body Hv. rewrite <- Validate_Normalize in Hv.
    repeat split; [exact Hv | now apply valid_images_of_Validate |].
    now rewrite Normalize_images. }
  split; [| split].
  - intros o doc Ho Hin. apply in_app_or in Ho as [Ho | Ho].
    + destruct (POST_calls B c s) as [Hnil | (body & _ & Hv & Hcalls)].
      * rewrite Hnil in Ho. destruct Ho.
      * rewrite Hcalls in Ho. destruct Ho as [<- | []].
        destruct Hin as [<- | []]. now apply Hdoc.
    + destruct (PUT_calls B c s) as [Hnil | (body & _ & _ & Hv & Hcalls)].
      * rewrite Hnil in Ho. destruct Ho.
      * rewrite Hcalls in Ho. destruct Ho as [<- | []].
        destruct Hin as [<- | []]. now apply Hdoc.
  - intros Hst.
    destruct (POST_calls B c s) as [Hnil | (body & Hb & Hv & Hcalls)].
    + exfalso. revert Hst. unfold POST in *.
      destruct (Bind c) as [err | body]; [discriminate |].
      destruct (Marker.Validate body); [discriminate |].
      simpl in Hnil.
      destruct (exec B (InsertOne (Marker.Normalize body)) s) as [r s'].
      discriminate Hnil.
    + now exists body.
  - intros Hst.
    destruct (PUT_calls B c s) as [Hnil | (body & Hb & Hid & Hv & Hcalls)].
    + exfalso. revert Hst. unfold PUT in *.
      destruct (Bind c) as [err | body]; [discriminate |].
      destruct (negb (Marker.ID body =? Param c "id")%string); [discriminate |].
      destruct (Marker.Validate body); [discriminate |].
      simpl in Hnil.
      destruct (exec B (ReplaceOne (Param c "id") (Marker.Normalize body)) s)
        as [r s'].
      discriminate Hnil.
    + exists body. split; [exact Hb |]. now rewrite Hid.
Qed.

(** The amended C8 on the marker whose images share an id: it is stored,
    and its images are valid one by one. *)
Lemma accepted_markers_have_valid_images_witness :
  calls (run MemStore (POST (request "" twins)) ∅) = [InsertOne twins] /\
  Marker.Validate twins = None /\
  Forall valid_image (range (Marker.Images twins)) /\
  Marker.Images twins <> None.
Proof.
  destruct (accepted_markers_have_valid_images MemStore (request "" twins) ∅)
    as (Hwritten & Hpost & _).
  destruct (Hpost eq_refl) as (body & Hb & Hcalls).
  injection Hb as <-.
  split; [exact Hcalls |].
  apply (Hwritten (InsertOne twins) twins).
  - apply in_or_app. left. change twins with (Marker.Normalize twins) at 1.
    rewrite Hcalls. now left.
  - now left.
Defined.

(** ** Further request outcomes *)

(** X2: Create with a payload that binds and fails validation calls the
    store not at all and leaves it as it was; its one logger call is
    [c.Logger().Info] with the validation error, and it hands status 400
    and [Error{err}] with that error to [c.JSON]. *)
Theorem Create_invalid_payload (B : Backend) (c : Context) (body : Marker.t)
    (err : error) (s : State B) :
  Bind c = inr body ->
  Marker.Validate body = Some err ->
  run B (POST c) s
  = {| result := {| Status := 400; Payload := ErrorBody err |};
       final := s; calls := []; logged := [(INFO, LogErr err)] |}.
Proof. intros Hb Hv. unfold POST. now rewrite Hb, Hv. Qed.

(** X2 on a payload with an empty name. *)
Lemma Create_invalid_payload_witness :
  run MemStore (POST (request "" nameless)) ∅
  = {| result := {| Status := 400;
                    Payload := ErrorBody (errorString "empty name") |};
       final := ∅; calls := [];
       logged := [(INFO, LogErr (errorString "empty name"))] |}.
Proof.
  apply (Create_invalid_payload MemStore (request "" nameless) nameless);
    reflexivity.
Defined.

(** X3: Update with a valid payload under the id of the path, on a store
    that holds that id: the answer is 200 and the stored document is
    replaced as a whole by the normalised payload; when the coordinates of
    the payload and of the stored markers are numbers, a List that follows
    answers 200 and includes the payload. *)
Theorem Update_then_List (c c' : Context) (body old : Marker.t)
    (s : gmap string Marker.t) :
  Bind c = inr body ->
  Marker.ID body = Param c "id" ->
  Marker.Validate body = None ->
  s !! Param c "id" = Some old ->
  run MemStore (PUT c) s
  = {| result := {| Status := 200; Payload := NoBody |};
       final := <[Param c "id" := Marker.Normalize body]> s;
       calls := [ReplaceOne (Param c "id") (Marker.Normalize body)];
       logged := [] |} /\
  final (run MemStore (PUT c) s) !! Param c "id" = Some (Marker.Normalize body) /\
  (finite_coords body = true ->
   encodable_store s ->
   exists results : list Marker.t,
     result (run MemStore (GET c') (final (run MemStore (PUT c) s)))
     = {| Status := 200; Payload := MarkersBody (Some results) |} /\
     In (Marker.Normalize body) results).
Proof.
  intros Hb Hid Hv Hold.
  assert (Hrun : run MemStore (PUT c) s
                 = {| result := {| Status := 200; Payload := NoBody |};
                      final := <[Param c "id" := Marker.Normalize body]> s;
                      calls := [ReplaceOne (Param c "id") (Marker.Normalize body)];
                      logged := [] |}).
  { rewrite (PUT_valid c body Hb Hid Hv).
    rewrite (run_Db MemStore (ReplaceOne (Param c "id") (Marker.Normalize body))
               _ s (<[Param c "id" := Marker.Normalize body]> s) None).
    - reflexivity.
    - simpl. unfold mem_exec. rewrite Hold.
      replace (Marker.ID (Marker.Normalize body)) with (Marker.ID body)
        by now destruct body as [id name loc [xs | ]].
      now rewrite Hid, String.eqb_refl. }
  rewrite Hrun. simpl final.
  split; [reflexivity | split].
  - exact (lookup_insert_eq s (Param c "id") (Marker.Normalize body)).
  - intros Hfin Hstore. unfold MemStore. rewrite MemStore_List.
    simpl result. rewrite encodable_store_documents.
    + eexists. split; [reflexivity |].
      apply (MemStore_documents _ (Param c "id")). apply lookup_insert_eq.
    + apply map_Forall_insert_2; [| exact Hstore].
      now rewrite finite_coords_Normalize.
Qed.

(** X3 on a store that holds the cafe, replaced by the bridge. *)
Lemma Update_then_List_witness :
  run MemStore (PUT (request "a" bridge)) {[ "a" := Marker.Normalize cafe ]}
  = {| result := {| Status := 200; Payload := NoBody |};
       final := <[ "a" := bridge ]> {[ "a" := Marker.Normalize cafe ]};
       calls := [ReplaceOne "a" bridge];
       logged := [] |}.
Proof.
  refine (proj1 (Update_then_List (request "a" bridge) (request "a" bridge)
                   bridge (Marker.Normalize cafe)
                   {[ "a" := Marker.Normalize cafe ]} _ _ _ _));
    reflexivity.
Defined.

(** ** Every handler, on every store *)

(** X4: Update with a valid payload under the id of the path makes one store
    call, the replace of the normalised payload under that id; it answers
    200 when the call reports no error and 503 with the error otherwise,
    also when the error is a duplicate-key write exception. *)
Theorem Update_valid_payload (B : Backend) (c : Context) (body : Marker.t)
    (s : State B) :
  Bind c = inr body ->
  Marker.ID body = Param c "id" ->
  Marker.Validate body = None ->
  calls (run B (PUT c) s)
  = [ReplaceOne (Marker.ID body) (Marker.Normalize body)] /\
  final (run B (PUT c) s)
  = snd (exec B (ReplaceOne (Param c "id") (Marker.Normalize body)) s) /\
  result (run B (PUT c) s)
  = match fst (exec B (ReplaceOne (Param c "id") (Marker.Normalize body)) s) with
    | None => {| Status := 200; Payload := NoBody |}
    | Some err => {| Status := 503; Payload := ErrorBody err |}
    end.
Proof.
  intros Hb Hid Hv. rewrite (PUT_valid c body Hb Hid Hv), Hid. simpl.
  now destruct (exec B (ReplaceOne (Param c "id") (Marker.Normalize body)) s)
    as [[err |] s'].
Qed.

(** X4 on a store that cannot be reached. *)
Lemma Update_valid_payload_witness :
  result (run Down (PUT (request "a" bridge)) ∅)
  = {| Status := 503; Payload := ErrorBody unreachable |} /\
  result (run (Faulty (fun _ => Some duplicate_key_error))
            (PUT (request "a" bridge)) ∅)
  = {| Status := 503; Payload := ErrorBody duplicate_key_error |}.
Proof.
  split.
  - apply (Update_valid_payload Down (request "a" bridge) bridge ∅);
      reflexivity.
  - apply (Update_valid_payload (Faulty (fun _ => Some duplicate_key_error))
             (request "a" bridge) bridge ∅); reflexivity.
Defined.

(** The run of List on any store. *)
Lemma GET_run (B : Backend) (c : Context) (s : State B) :
  run B (GET c) s
  = match exec B Find s with
    | (inl err, s1) =>
        {| result := {| Status := 503; Payload := ErrorBody err |};
           final := s1; calls := [Find]; logged := [(ERROR, LogErr err)] |}
    | (inr cursor, s1) =>
        match exec B (All cursor) s1 with
        | (inl err, s2) =>
            {| result := {| Status := 503; Payload := ErrorBody err |};
               final := s2; calls := [Find; All cursor];
               logged := [(ERROR, LogErr err)] |}
        | (inr docs, s2) =>
            {| result := if forallb finite_coords docs
                         then {| Status := 200;
                                 Payload := MarkersBody (Some docs) |}
                         else InternalServerError;
               final := s2; calls := [Find; All cursor]; logged := [] |}
        end
    end.
Proof.
  unfold GET. cbn [run].
  destruct (exec B Find s) as [[err | cursor] s1]; [reflexivity |].
  cbn [run].
  destruct (exec B (All cursor) s1) as [[err | docs] s2]; [reflexivity |].
  replace (fill (Some []) docs) with (Some docs) by now destruct docs.
  unfold JSON. rewrite encodable_markers.
  now destruct (forallb finite_coords docs).
Qed.

(** The outcomes of one run, handler by handler. *)
Ltac run_cases B s :=
  repeat first
    [ rewrite GET_run
    | progress simpl
    | match goal with
      | |- context [match Bind ?c with _ => _ end] => destruct (Bind c)
      | |- context [match Marker.Validate ?m with _ => _ end] =>
          destruct (Marker.Validate m)
      | |- context [if negb (String.eqb ?a ?b) then _ else _] =>
          destruct (String.eqb a b)
      | |- context [exec B ?o s] => destruct (exec B o s) as [[] ?]
      | |- context [exec B ?o ?s'] => destruct (exec B o s') as [[] ?]
      | |- context [if is_duplicate_key ?e then _ else _] =>
          destruct (is_duplicate_key e)
      | |- context [if forallb finite_coords ?d then _ else _] =>
          destruct (forallb finite_coords d) eqn:?
      end ].


Lemma GET_calls (B : Backend) (c : Context) (s : State B) :
  calls (run B (GET c) s) = [Find]
  \/ exists cursor : Cursor, calls (run B (GET c) s) = [Find; All cursor].
Proof.
  rewrite GET_run. destruct (exec B Find s) as [[err | cursor] s1].
  - now left.
  - right. exists cursor.
    now destruct (exec B (All cursor) s1) as [[err | docs] s2].
Qed.

Lemma DELETE_calls (B : Backend) (c : Context) (s : State B) :
  calls (run B (DELETE c) s) = [DeleteOne (Param c "id")].
Proof.
  unfold DELETE. simpl.
  now destruct (exec B (DeleteOne (Param c "id")) s) as [[err |] s'].
Qed.

(** X6: a request makes at most one write call to the store, and List makes
    none; an insert is only ever issued by Create, a replace only by Update
    and a delete only by Delete; a replace and a delete address the id of
    the path, and the document of a replace carries that same id. *)
Theorem one_write_per_request (B : Backend) (m : Method) (c : Context)
    (s : State B) :
  (length (List.filter is_write (calls (run B (route m c) s))) <= 1)%nat /\
  (m = MethodGet ->
   List.filter is_write (calls (run B (route m c) s)) = []) /\
  (forall doc : Marker.t,
   In (InsertOne doc) (calls (run B (route m c) s)) -> m = MethodPost) /\
  (forall (id : string) (doc : Marker.t),
   In (ReplaceOne id doc) (calls (run B (route m c) s)) ->
   m = MethodPut /\ id = Param c "id" /\ Marker.ID doc = id) /\
  (forall id : string,
   In (DeleteOne id) (calls (run B (route m c) s)) ->
   m = MethodDelete /\ id = Param c "id").
Proof.
  destruct m; unfold route.
  - destruct (GET_calls B c s) as [-> | [cursor ->]]; simpl;
      repeat split; try lia; intuition discriminate.
  - destruct (POST_calls B c s) as [-> | (body & _ & _ & ->)]; simpl;
      repeat split; try lia; intuition discriminate.
  - rewrite DELETE_calls. simpl. repeat split; try lia;
      try (intuition discriminate).
    destruct H as [[= <-] | []]. reflexivity.
  - destruct (PUT_calls B c s) as [-> | (body & _ & Hid & _ & ->)]; simpl;
      repeat split; try lia; try (intuition discriminate).
    + destruct H as [[= <- _] | []]. reflexivity.
    + destruct H as [[= <- <-] | []].
      now destruct body as [id' name loc [xs | ]].
Qed.

(** ** Validation, once more *)

(** X7: normalisation does not change the verdict of validation, so a
    marker validated before [Normalize], as the handlers do, is as valid
    after it; and the normalised marker has an image sequence that is not
    nil. *)
Theorem Normalize_preserves_validation (m : Marker.t) :
  Marker.Validate (Marker.Normalize m) = Marker.Validate m /\
  Marker.Images (Marker.Normalize m) <> None /\
  range (Marker.Images (Marker.Normalize m)) = range (Marker.Images m).
Proof.
  split; [apply Validate_Normalize | split; [| apply Normalize_range]].
  now rewrite Normalize_images.
Qed.

Lemma Coords_Validate_Some (c : Coords.t) (e : error) :
  Coords.Validate c = Some e ->
  e = errorString "invalid latitude" \/ e = errorString "invalid longitude".
Proof.
  unfold Coords.Validate.
  destruct (_ || _); [intros [= <-]; now left |].
  destruct (_ || _); [intros [= <-]; now right | discriminate].
Qed.

Lemma Image_Validate_Some (i : Image.t) (e : error) :
  Image.Validate i = Some e ->
  e = errorString "empty id" \/ e = errorString "empty uri"
  \/ e = errorString "invalid dimensions".
Proof.
  unfold Image.Validate.
  destruct (String.eqb _ _); [intros [= <-]; tauto |].
  destruct (String.eqb _ _); [intros [= <-]; tauto |].
  destruct (_ || _); [intros [= <-]; tauto | discriminate].
Qed.

(** X8: the errors of [Marker.Validate]. An error is "empty id", or
    "empty name", or wraps the error of the location under the text
    "invalid location: " followed by "invalid latitude" or "invalid
    longitude", or wraps the error of an image of the marker under
    "invalid image ", the id of that image, ": " and one of "empty id",
    "empty uri" and "invalid dimensions". No such error is a write
    exception, so none is taken for a duplicate key. *)
Theorem Marker_Validate_errors (m : Marker.t) (e : error) :
  Marker.Validate m = Some e ->
  (e = errorString "empty id"
   \/ e = errorString "empty name"
   \/ (exists cause : error,
         Coords.Validate (Marker.Location m) = Some cause /\
         e = wrapError ("invalid location: " +:+ Error cause) cause /\
         (Error cause = "invalid latitude" \/ Error cause = "invalid longitude"))
   \/ (exists (i : Image.t) (cause : error),
         In i (range (Marker.Images m)) /\
         Image.Validate i = Some cause /\
         e = wrapError ("invalid image " +:+ Image.ID i +:+ ": " +:+ Error cause)
               cause /\
         (Error cause = "empty id" \/ Error cause = "empty uri"
          \/ Error cause = "invalid dimensions"))) /\
  is_duplicate_key e = false.
Proof.
  unfold Marker.Validate.
  destruct (String.eqb _ _); [intros [= <-]; split; [tauto | reflexivity] |].
  destruct (String.eqb _ _); [intros [= <-]; split; [tauto | reflexivity] |].
  destruct (Coords.Validate (Marker.Location m)) as [cause |] eqn:Hc.
  - intros [= <-]. destruct (Coords_Validate_Some _ _ Hc) as [-> | ->];
      (split; [| reflexivity]); right; right; left;
      eexists; (split; [reflexivity |]); (split; [reflexivity |]); tauto.
  - intros H.
    destruct (validate_images_Some _ _ H)
      as (pre & i & post & cause & Himgs & _ & Hi & ->).
    assert (Hin : In i (range (Marker.Images m))).
    { rewrite Himgs. apply in_or_app. right. now left. }
    destruct (Image_Validate_Some _ _ Hi) as [-> | [-> | ->]];
      (split; [| reflexivity]); right; right; right;
      exists i; eexists; (split; [exact Hin |]); (split; [exact Hi |]);
      (split; [unfold Errorf_w; now rewrite !append_assoc |]); tauto.
Qed.

(** X8 on the payload whose second image has height [0]. *)
Lemma Marker_Validate_errors_witness :
  Error (wrapError "invalid image p2: invalid dimensions"
           (errorString "invalid dimensions"))
  = "invalid image p2: invalid dimensions" /\
  is_duplicate_key (wrapError "invalid image p2: invalid dimensions"
                      (errorString "invalid dimensions")) = false.
Proof.
  destruct (Marker_Validate_errors album
              (wrapError "invalid image p2: invalid dimensions"
                 (errorString "invalid dimensions")) eq_refl) as [_ Hdup].
  split; [reflexivity | exact Hdup].
Defined.

(** X9: latitude is checked before longitude. For valid float64
    coordinates the error is "invalid latitude" exactly when the latitude
    is a number or infinity outside [-180, 180], whatever the longitude, and
    "invalid longitude" exactly when the latitude passes and the longitude
    is a number or infinity outside [-90, 90]; there is no other error. *)
Theorem Coords_Validate_error (c : Coords.t) :
  Float64.valid (Coords.Latitude c) = true ->
  Float64.valid (Coords.Longitude c) = true ->
  (Coords.Validate c = Some (errorString "invalid latitude") <->
   Float64.is_nan (Coords.Latitude c) = false /\
   ~ Float64.in_range (-180) 180 (Coords.Latitude c)) /\
  (Coords.Validate c = Some (errorString "invalid longitude") <->
   (Float64.is_nan (Coords.Latitude c) = true
    \/ Float64.in_range (-180) 180 (Coords.Latitude c)) /\
   Float64.is_nan (Coords.Longitude c) = false /\
   ~ Float64.in_range (-90) 90 (Coords.Longitude c)) /\
  (forall e : error,
   Coords.Validate c = Some e ->
   e = errorString "invalid latitude" \/ e = errorString "invalid longitude").
Proof.
  intros Vlat Vlon.
  pose proof (within_in_range (-180) 180 _ representable_m180
                representable_180 Vlat) as Hlat.
  pose proof (within_in_range (-90) 90 _ representable_m90
                representable_90 Vlon) as Hlon.
  rewrite Coords_Validate_checks.
  destruct (Float64.is_nan (Coords.Latitude c));
    destruct (Float64.within (-180) 180 (Coords.Latitude c));
    destruct (Float64.is_nan (Coords.Longitude c));
    destruct (Float64.within (-90) 90 (Coords.Longitude c));
    simpl; (split; [| split]);
    try (intros e [= <-]; tauto); try (intros e; discriminate);
    (split; [try discriminate | ]); intuition (discriminate || auto).
Qed.

(** X9 on a pair with both coordinates out of range: the error names the
    latitude. *)
Lemma Coords_Validate_error_witness :
  Coords.Validate {| Coords.Latitude := Float64.of_Z 200;
                     Coords.Longitude := Float64.of_Z 200 |}
  = Some (errorString "invalid latitude") <->
  Float64.is_nan (Float64.of_Z 200) = false /\
  ~ Float64.in_range (-180) 180 (Float64.of_Z 200).
Proof.
  apply (Coords_Validate_error
           {| Coords.Latitude := Float64.of_Z 200;
              Coords.Longitude := Float64.of_Z 200 |}); reflexivity.
Defined.

(** ** Requests on the in-memory store *)

Lemma Normalize_ID (m : Marker.t) :
  Marker.ID (Marker.Normalize m) = Marker.ID m.
Proof. now destruct m as [id name loc [xs | ]]. Qed.

(** Create with a valid payload on the in-memory store. *)
Lemma MemStore_POST (c : Context) (body : Marker.t) (s : gmap string Marker.t) :
  Bind c = inr body -> Marker.Validate body = None ->
  run MemStore (POST c) s
  = match s !! Marker.ID body with
    | None =>
        {| result := {| Status := 201; Payload := NoBody |};
           final := <[Marker.ID body := Marker.Normalize body]> s;
           calls := [InsertOne (Marker.Normalize body)];
           logged := [] |}
    | Some _ =>
        {| result := {| Status := 400;
                        Payload := ErrorStringBody "duplicated id" |};
           final := s;
           calls := [InsertOne (Marker.Normalize body)];
           logged := [(INFO, LogStr "duplicated id")] |}
    end.
Proof.
  intros Hb Hv. rewrite (POST_valid c body Hb Hv). simpl. unfold mem_exec.
  rewrite Normalize_ID. now destruct (s !! Marker.ID body).
Qed.

(** Update with a valid payload under the id of the path on the in-memory
    store. *)
Lemma MemStore_PUT (c : Context) (body : Marker.t) (s : gmap string Marker.t) :
  Bind c = inr body -> Marker.ID body = Param c "id" ->
  Marker.Validate body = None ->
  run MemStore (PUT c) s
  = {| result := {| Status := 200; Payload := NoBody |};
       final := match s !! Param c "id" with
                | Some _ => <[Param c "id" := Marker.Normalize body]> s
                | None => s
                end;
       calls := [ReplaceOne (Param c "id") (Marker.Normalize body)];
       logged := [] |}.
Proof.
  intros Hb Hid Hv. rewrite (PUT_valid c body Hb Hid Hv). simpl.
  unfold mem_exec. rewrite Normalize_ID, Hid, String.eqb_refl.
  now destruct (s !! Param c "id").
Qed.

Lemma MemStore_DELETE (c : Context) (s : gmap string Marker.t) :
  run MemStore (DELETE c) s
  = {| result := {| Status := 200; Payload := NoBody |};
       final := delete (Param c "id") s;
       calls := [DeleteOne (Param c "id")];
       logged := [] |}.
Proof. reflexivity. Qed.

(** X10: creating the same id twice. When the store does not hold the id,
    the first Create answers 201; a second Create with a valid payload of
    that id, whatever its other fields, answers 400 "duplicated id" and
    leaves the first marker in place. *)
Theorem Create_twice (c1 c2 : Context) (first second : Marker.t)
    (s : gmap string Marker.t) :
  Bind c1 = inr first -> Bind c2 = inr second ->
  Marker.Validate first = None -> Marker.Validate second = None ->
  Marker.ID second = Marker.ID first ->
  s !! Marker.ID first = None ->
  result (run MemStore (POST c1) s) = {| Status := 201; Payload := NoBody |} /\
  run MemStore (POST c2) (final (run MemStore (POST c1) s))
  = {| result := {| Status := 400;
                    Payload := ErrorStringBody "duplicated id" |};
       final := final (run MemStore (POST c1) s);
       calls := [InsertOne (Marker.Normalize second)];
       logged := [(INFO, LogStr "duplicated id")] |} /\
  final (run MemStore (POST c1) s) !! Marker.ID first
  = Some (Marker.Normalize first).
Proof.
  intros Hb1 Hb2 Hv1 Hv2 Hid Hfresh.
  rewrite (MemStore_POST c1 first s Hb1 Hv1), Hfresh. simpl.
  assert (Hl : (<[Marker.ID first := Marker.Normalize first]> s : gmap string Marker.t)
               !! Marker.ID first = Some (Marker.Normalize first))
    by apply lookup_insert_eq.
  split; [reflexivity | split; [| exact Hl]].
  rewrite (MemStore_POST c2 second _ Hb2 Hv2), Hid.
  replace (<[Marker.ID first:=Marker.Normalize first]> s !! Marker.ID first)
    with (Some (Marker.Normalize first)).
  reflexivity.
Qed.

(** X10 on the empty store: the cafe, then the bridge under the same id. *)
Lemma Create_twice_witness :
  result (run MemStore (POST (request "" bridge))
            (final (run MemStore (POST (request "" cafe)) ∅)))
  = {| Status := 400; Payload := ErrorStringBody "duplicated id" |}.
Proof.
  refine (f_equal result
            (proj1 (proj2 (Create_twice (request "" cafe) (request "" bridge)
                             cafe bridge ∅ _ _ _ _ _ _))));
    reflexivity.
Defined.

(** X11: Create and then Delete of the same id, on a store that did not
    hold the id, answer 201 and 200 and leave the store as it was. *)
Theorem Create_then_Delete (c c' : Context) (body : Marker.t)
    (s : gmap string Marker.t) :
  Bind c = inr body ->
  Marker.Validate body = None ->
  Param c' "id" = Marker.ID body ->
  s !! Marker.ID body = None ->
  result (run MemStore (POST c) s) = {| Status := 201; Payload := NoBody |} /\
  result (run MemStore (DELETE c') (final (run MemStore (POST c) s)))
  = {| Status := 200; Payload := NoBody |} /\
  final (run MemStore (DELETE c') (final (run MemStore (POST c) s))) = s.
Proof.
  intros Hb Hv Hid Hfresh.
  rewrite (MemStore_POST c body s Hb Hv), Hfresh, MemStore_DELETE. simpl.
  repeat split. rewrite Hid. now apply delete_insert_id.
Qed.

(** X11 on the empty store. *)
Lemma Create_then_Delete_witness :
  final (run MemStore (DELETE (request "a" cafe))
           (final (run MemStore (POST (request "" cafe)) ∅)))
  = ∅.
Proof.
  refine (proj2 (proj2 (Create_then_Delete (request "" cafe)
                          (request "a" cafe) cafe ∅ _ _ _ _)));
    reflexivity.
Defined.

(** What one request can do to the in-memory store, whatever it does with
    a replace of a missing id: nothing, put a valid normalised marker under
    its own id, or delete the id of the path. *)
Lemma MemStore_step (missing : OnMissing) (m : Method) (c : Context)
    (s : gmap string Marker.t) :
  final (run (MemStoreWith missing) (route m c) s) = s
  \/ (exists body : Marker.t,
        Bind c = inr body /\ Marker.Validate body = None /\
        final (run (MemStoreWith missing) (route m c) s)
        = <[Marker.ID body := Marker.Normalize body]> s)
  \/ final (run (MemStoreWith missing) (route m c) s)
     = delete (Param c "id") s.
Proof.
  destruct m; unfold route.
  - left. now rewrite MemStore_List.
  - destruct (Bind c) as [err | body] eqn:Hb.
    + left. unfold POST. now rewrite Hb.
    + destruct (Marker.Validate body) as [err |] eqn:Hv.
      * left. unfold POST. now rewrite Hb, Hv.
      * rewrite (POST_valid c body Hb Hv).
        cbn [run MemStoreWith exec]. unfold mem_exec.
        rewrite Normalize_ID.
        destruct (s !! Marker.ID body); [now left |].
        right. left. now exists body.
  - right. right. reflexivity.
  - destruct (Bind c) as [err | body] eqn:Hb.
    + left. unfold PUT. now rewrite Hb.
    + destruct (String.eqb_spec (Marker.ID body) (Param c "id")) as [Hid | Hne].
      * destruct (Marker.Validate body) as [err |] eqn:Hv.
        -- left. now rewrite (Update_invalid_body (MemStoreWith missing)
                                c body err s Hb Hid Hv).
        -- rewrite (PUT_valid c body Hb Hid Hv).
           cbn [run MemStoreWith exec]. unfold mem_exec.
           rewrite Normalize_ID, Hid, String.eqb_refl.
           destruct (s !! Param c "id").
           ++ right. left. exists body. now rewrite Hid.
           ++ destruct missing; [now left | | now left].
              right. left. exists body. now rewrite Hid.
      * left. unfold PUT. rewrite Hb.
        apply String.eqb_neq in Hne. now rewrite Hne.
Qed.








(** X14: Delete on a store that keeps every document under its own id and
    holds only markers whose coordinates are numbers answers 200 and
    removes the id of the path: a List that follows answers 200, returns no
    marker of that id and only markers the store held before; a second
    Delete of the id answers 200 and changes nothing more. *)
Theorem Delete_then_List (c c' : Context) (s : gmap string Marker.t) :
  keyed s ->
  encodable_store s ->
  result (run MemStore (DELETE c) s) = {| Status := 200; Payload := NoBody |} /\
  (exists docs : list Marker.t,
   result (run MemStore (GET c') (final (run MemStore (DELETE c) s)))
   = {| Status := 200; Payload := MarkersBody (Some docs) |} /\
   Forall (fun m => Marker.ID m <> Param c "id"
                    /\ In m (snd <$> map_to_list s)) docs) /\
  run MemStore (DELETE c) (final (run MemStore (DELETE c) s))
  = {| result := {| Status := 200; Payload := NoBody |};
       final := final (run MemStore (DELETE c) s);
       calls := [DeleteOne (Param c "id")];
       logged := [] |}.
Proof.
  intros Hs Hfin. rewrite !MemStore_DELETE. cbn [final result].
  split; [reflexivity | split].
  - unfold MemStore. rewrite MemStore_List. cbn [result].
    rewrite encodable_store_documents by now apply map_Forall_delete.
    eexists. split; [reflexivity |].
    apply Forall_fmap, Forall_forall. intros [id m] Hin. simpl.
    apply elem_of_map_to_list, lookup_delete_Some in Hin as [Hne Hl].
    pose proof (map_Forall_lookup_1 _ _ _ _ Hs Hl) as Hid. simpl in Hid.
    split; [congruence |].
    now apply (MemStore_documents s id).
  - f_equal. apply delete_id, lookup_delete_eq.
Qed.

(** X14 on a store that holds the cafe. *)
Lemma Delete_then_List_witness :
  exists docs : list Marker.t,
    result (run MemStore (GET (request "" cafe))
              (final (run MemStore (DELETE (request "a" cafe))
                        {[ "a" := Marker.Normalize cafe ]})))
    = {| Status := 200; Payload := MarkersBody (Some docs) |} /\
    Forall (fun m => Marker.ID m <> "a"
                     /\ In m (snd <$> map_to_list
                                ({[ "a" := Marker.Normalize cafe ]}
                                 : gmap string Marker.t))) docs.
Proof.
  assert (Hs : keyed ({[ "a" := Marker.Normalize cafe ]}
                      : gmap string Marker.t)).
  { unfold keyed. now apply map_Forall_singleton. }
  assert (Hfin : encodable_store ({[ "a" := Marker.Normalize cafe ]}
                                  : gmap string Marker.t)).
  { unfold encodable_store. now apply map_Forall_singleton. }
  exact (proj1 (proj2 (Delete_then_List (request "a" cafe) (request "" cafe)
                         {[ "a" := Marker.Normalize cafe ]} Hs Hfin))).
Defined.

(** X15: a request changes at most the document it addresses. On the
    in-memory store, whatever the method, the documents under every id other
    than the id of the path and the id of the body are after the request
    what they were before it. *)
Theorem request_frame (m : Method) (c : Context) (s : gmap string Marker.t)
    (k : string) :
  k <> Param c "id" ->
  (forall body : Marker.t, Bind c = inr body -> k <> Marker.ID body) ->
  final (run MemStore (route m c) s) !! k = s !! k.
Proof.
  intros Hpath Hbody. unfold MemStore.
  destruct (MemStore_step SucceedSilently m c s)
    as [-> | [(body & Hb & _ & ->) | ->]].
  - reflexivity.
  - assert (Hne : Marker.ID body <> k).
    { intros Heq. now apply (Hbody body Hb). }
    exact (lookup_insert_ne s _ _ _ Hne).
  - assert (Hne : Param c "id" <> k) by congruence.
    exact (lookup_delete_ne s _ _ Hne).
Qed.

(** X15 on an Update of "a" in a store that also holds "t". *)
Lemma request_frame_witness :
  final (run MemStore (route MethodPut (request "a" bridge))
           (<[ "t" := twins ]> {[ "a" := Marker.Normalize cafe ]})) !! "t"
  = (<[ "t" := twins ]> {[ "a" := Marker.Normalize cafe ]}
     : gmap string Marker.t) !! "t".
Proof.
  apply (request_frame MethodPut (request "a" bridge)).
  - discriminate.
  - intros body [= <-]. discriminate.
Defined.

(** X16: client errors other than a duplicate id never reach the store. On
    any store, a request answered 400 with a body other than the message
    "duplicated id" made no store call and left the store as it was; a
    request answered 400 with that message made exactly one call, an
    insert. *)
Theorem bad_request_and_store (B : Backend) (m : Method) (c : Context)
    (s : State B) :
  Status (result (run B (route m c) s)) = 400 ->
  (Payload (result (run B (route m c) s)) <> ErrorStringBody "duplicated id" ->
   calls (run B (route m c) s) = [] /\ final (run B (route m c) s) = s) /\
  (Payload (result (run B (route m c) s)) = ErrorStringBody "duplicated id" ->
   m = MethodPost /\
   exists doc : Marker.t, calls (run B (route m c) s) = [InsertOne doc]).
Proof.
  destruct m; unfold route, POST, DELETE, PUT; run_cases B s;
    unfold http.StatusOK, http.StatusCreated, http.StatusBadRequest,
      http.StatusServiceUnavailable, InternalServerError,
      http.StatusInternalServerError;
    intros Hst; try discriminate Hst.
  all: split.
  all: try (intros Hne; try (now elim Hne); now split).
  all: try (intros Heq; try discriminate Heq;
              split; [reflexivity | eexists; reflexivity]).
Qed.

(** X16 on an Update with an empty name. *)
Lemma bad_request_and_store_witness :
  calls (run MemStore (route MethodPut (request "b" nameless))
           {[ "b" := cafe ]}) = [] /\
  final (run MemStore (route MethodPut (request "b" nameless))
           {[ "b" := cafe ]}) = {[ "b" := cafe ]}.
Proof.
  apply (bad_request_and_store MemStore MethodPut (request "b" nameless)
           {[ "b" := cafe ]}).
  - reflexivity.
  - discriminate.
Defined.
